(** * quicktalk_be: presence tracking, call relay and group-chat controllers

    A shallow embedding of [server.js] (Socket.IO connection handlers and
    the in-memory [onlineUsers] object) and of the chat and message
    controllers of [controllers/chatController.js], with the properties
    their specification states about them.

    Conventions of the embedding:
    - identifiers ([_id] of users and chats, socket ids, room names) are
      strings, in the canonical form [ObjectId.toString()] produces;
      property names inherited from [Object.prototype] are not identities;
      a request may also spell an ObjectId with upper-case hex digits,
      which the driver casts to the same id: the controllers are
      embedded for ids in the canonical spelling, and a property that
      depends on it says so ([isValid], [canonically_spelled]);
    - text is a string of ASCII characters where a property depends on
      what [trim] strips ([ascii_only]);
    - a JS value that may be [undefined]/[null] is an [option]; the empty
      string is falsy, as in JS;
    - the [onlineUsers] object is an association list in insertion order
      (the order [Object.keys] enumerates non-index string keys in);
    - a Mongo collection is the list of its documents in insertion order;
      [findOne] returns the first document that satisfies the filter;
      the [createdAt]/[updatedAt] stamps are left out;
    - store calls answer; the one failure the controllers provide for in
      their own control flow, a [populate] that does not go through, is
      a flag of the store ([populateOk]); the [catch] blocks that turn an
      exception of the driver into a 500 are left out;
    - [req.io] is always there ([server.js] attaches it to every request);
    - every [await]ed store call and every socket call of a controller is
      one effect of a program tree, so that handlers can be run to the end
      or interleaved at their [await] points. *)

From Stdlib Require Import List String Ascii Bool Arith NArith Lia.
From Stdlib Require Import DecimalString.
From Stdlib Require Import Permutation.
Import ListNotations.
Local Open Scope string_scope.
Local Open Scope list_scope.

Set Implicit Arguments.

(* ================================================================== *)
(** ** JavaScript helpers *)
(* ================================================================== *)

(** [if (s)] on a string: only the empty string is falsy. *)
Definition truthy (s : string) : bool :=
  match s with
  | EmptyString => false
  | String _ _ => true
  end.

(** [if (v)] on a value that may be undefined. *)
Definition truthy_opt (v : option string) : bool :=
  match v with
  | Some s => truthy s
  | None => false
  end.

Definition opt_eqb (a b : option string) : bool :=
  match a, b with
  | Some x, Some y => String.eqb x y
  | None, None => true
  | _, _ => false
  end.

Definition mem (x : string) (l : list string) : bool :=
  existsb (String.eqb x) l.

(** [[...new Set(l)]]: first occurrences, in order. *)
Definition dedupe (l : list string) : list string :=
  fold_left (fun acc x => if mem x acc then acc else acc ++ [x]) l [].

Definition is_space (c : ascii) : bool :=
  match nat_of_ascii c with
  | 9 | 10 | 11 | 12 | 13 | 32 => true
  | _ => false
  end.

Fixpoint trim_start (s : string) : string :=
  match s with
  | EmptyString => EmptyString
  | String c r => if is_space c then trim_start r else s
  end.

Fixpoint trim_end (s : string) : string :=
  match s with
  | EmptyString => EmptyString
  | String c r =>
      match trim_end r with
      | EmptyString => if is_space c then EmptyString else String c EmptyString
      | r' => String c r'
      end
  end.

(** [String.prototype.trim] on ASCII white space. *)
Definition trim (s : string) : string := trim_end (trim_start s).

(** A JS object used as a map from string keys to string values. *)
Module Obj.

Definition t := list (string * string).

Fixpoint get (k : string) (o : t) : option string :=
  match o with
  | [] => None
  | (k', v) :: r => if String.eqb k k' then Some v else get k r
  end.

(** [o[k] = v]: an existing key keeps its place, a new one goes last. *)
Fixpoint set (k v : string) (o : t) : t :=
  match o with
  | [] => [(k, v)]
  | (k', v') :: r =>
      if String.eqb k k' then (k, v) :: r else (k', v') :: set k v r
  end.

(** [delete o[k]]. *)
Definition delete (k : string) (o : t) : t :=
  filter (fun kv => negb (String.eqb k (fst kv))) o.

(** [Object.keys(o)]. *)
Definition keys (o : t) : list string := map fst o.

End Obj.

(* ================================================================== *)
(** ** models/Chat.js, models/Message.js *)
(* ================================================================== *)

Record chat := mkChat {
  _id : string;
  chatName : string;
  isGroupChat : bool;
  users : list string;
  latestMessage : option string;
  groupAdmin : option string;
  about : string;
  groupPic : string
}.

Record message := mkMessage {
  m_id : string;
  sender : string;
  content : string;
  m_chat : string
}.

(* ================================================================== *)
(** ** Socket.IO events sent by the server *)
(* ================================================================== *)

Inductive payload :=
| PNone
| POnlineUsers (ids : list string)
| PTyping (userId : option string) (chatId : string)
| PCallIncoming (signal : string) (from name callType : option string)
| PCallAccepted (signal : string) (from : option string)
| PSignal (signal : string) (from : option string)
| PCallEnded (from : option string)
| PChat (c : chat)
| PChatRef (chatId chatName : string)
| PMessage (m : message).

Inductive target :=
| ToAll                                   (* io.emit *)
| ToSocket (sid : string)                 (* socket.emit *)
| ToRoom (room : string)                  (* io.to(room).emit *)
| ToRoomExcept (room sid : string).       (* socket.to(room).emit *)

Record emit := Emit {
  e_target : target;
  e_event : string;
  e_payload : payload
}.

(* ================================================================== *)
(** ** server.js *)
(* ================================================================== *)

Module Server.

(** The [userData] a client sends with "setup". *)
Record user_data := mkUserData {
  ud_id : option string;      (* userData._id *)
  ud_name : option string     (* userData.name *)
}.

Record socket := mkSocket {
  id : string;
  userData : option user_data;
  rooms : list string
}.

Record state := mkState {
  onlineUsers : Obj.t;        (* { userId: socketId } *)
  sockets : list socket       (* the connected sockets *)
}.

Definition initial : state := mkState [] [].

(** [getUserIdFromSocketId]. *)
Definition getUserIdFromSocketId (o : Obj.t) (socketId : string)
  : option string :=
  find (fun userId => opt_eqb (Obj.get userId o) (Some socketId))
       (Obj.keys o).

Definition update_socket (sid : string) (f : socket -> socket)
           (l : list socket) : list socket :=
  map (fun s => if String.eqb (id s) sid then f s else s) l.

Definition find_socket (sid : string) (l : list socket) : option socket :=
  find (fun s => String.eqb (id s) sid) l.

(** [socket.join(room)]; [socket.rooms] is a Set. *)
Definition join (room : string) (s : socket) : socket :=
  mkSocket (id s) (userData s)
           (if mem room (rooms s) then rooms s else rooms s ++ [room]).

(** [socket.leave(room)]. *)
Definition leave (room : string) (s : socket) : socket :=
  mkSocket (id s) (userData s)
           (filter (fun r => negb (String.eqb r room)) (rooms s)).

Definition set_userData (d : option user_data) (s : socket) : socket :=
  mkSocket (id s) d (rooms s).

(** [socket.userData?._id]. *)
Definition socket_user_id (sid : string) (st : state) : option string :=
  match find_socket sid st.(sockets) with
  | Some s =>
      match userData s with
      | Some d => ud_id d
      | None => None
      end
  | None => None
  end.

(** What a client can make the server run for the socket [sid]. *)
Inductive event :=
| Connection (sid : string)
| Setup (sid : string) (userData : option user_data)
| JoinChat (sid : string) (chatId : option string)
| Typing (sid : string) (chatId : option string)
| StopTyping (sid : string) (chatId : option string)
| CallUser (sid : string) (userToCall : string) (signalData : string)
           (from name callType : option string)
| CallAccepted (sid : string) (to signal : string)
| Signal (sid : string) (to signal : string)
| CallEnded (sid : string) (to : string)
| Disconnect (sid : string).

(** [io.on("connection", ...)]: a socket starts in the room of its id. *)
Definition on_connection (sid : string) (st : state) : state * list emit :=
  (mkState st.(onlineUsers)
           (st.(sockets) ++ [mkSocket sid None [sid]]), []).

(** [socket.on("setup", ...)]. *)
Definition on_setup (sid : string) (ud : option user_data) (st : state)
  : state * list emit :=
  match ud with
  | None => (st, [])
  | Some d =>
      match ud_id d with
      | None => (st, [])
      | Some uid =>
          if negb (truthy uid) then (st, [])
          else
            let socks :=
              update_socket sid
                (fun s => set_userData (Some d) (join uid s))
                st.(sockets) in
            let online := Obj.set uid sid st.(onlineUsers) in
            (mkState online socks,
             [ Emit ToAll "get online users"
                    (POnlineUsers (Obj.keys online));
               Emit (ToSocket sid) "connected" PNone ])
      end
  end.

(** [socket.on("join chat", ...)]. *)
Definition on_join_chat (sid : string) (chatId : option string)
           (st : state) : state * list emit :=
  match chatId with
  | None => (st, [])
  | Some c =>
      if negb (truthy c) then (st, [])
      else (mkState st.(onlineUsers)
                    (update_socket sid (join c) st.(sockets)), [])
  end.

(** [socket.on("typing", ...)] and [socket.on("stop typing", ...)]. *)
Definition on_typing_event (ev sid : string) (chatId : option string)
           (st : state) : state * list emit :=
  match chatId with
  | None => (st, [])
  | Some c =>
      if negb (truthy c) || negb (truthy_opt (socket_user_id sid st))
      then (st, [])
      else (st, [Emit (ToRoomExcept c sid) ev
                      (PTyping (socket_user_id sid st) c)])
  end.

Definition on_typing := on_typing_event "typing".
Definition on_stop_typing := on_typing_event "stop typing".

(** [socket.on("call-user", ...)]. *)
Definition on_call_user (sid userToCall signalData : string)
           (from name callType : option string) (st : state)
  : state * list emit :=
  let recipientSocketId := Obj.get userToCall st.(onlineUsers) in
  match recipientSocketId with
  | Some r =>
      if truthy r
      then (st, [Emit (ToRoom r) "call-incoming"
                      (PCallIncoming signalData from name callType)])
      else (st, [])
  | None => (st, [])
  end.

(** [socket.on("call-accepted", ...)]. *)
Definition on_call_accepted (sid to signal : string) (st : state)
  : state * list emit :=
  let callerSocketId := Obj.get to st.(onlineUsers) in
  match callerSocketId with
  | Some r =>
      if truthy r
      then (st, [Emit (ToRoom r) "call-accepted"
                      (PCallAccepted signal (socket_user_id sid st))])
      else (st, [])
  | None => (st, [])
  end.

(** [socket.on("signal", ...)]. *)
Definition on_signal (sid to signal : string) (st : state)
  : state * list emit :=
  let recipientSocketId := Obj.get to st.(onlineUsers) in
  match recipientSocketId with
  | Some r =>
      if truthy r
      then (st, [Emit (ToRoom r) "signal"
                      (PSignal signal (socket_user_id sid st))])
      else (st, [])
  | None => (st, [])
  end.

(** [socket.on("call-ended", ...)]. *)
Definition on_call_ended (sid to : string) (st : state)
  : state * list emit :=
  let recipientSocketId := Obj.get to st.(onlineUsers) in
  match recipientSocketId with
  | Some r =>
      if truthy r
      then (st, [Emit (ToRoom r) "call-ended"
                      (PCallEnded (socket_user_id sid st))])
      else (st, [])
  | None => (st, [])
  end.

(** [socket.on("disconnect", ...)]; Socket.IO then drops the socket,
    which has left all its rooms. *)
Definition on_disconnect (sid : string) (st : state) : state * list emit :=
  let socks := filter (fun s => negb (String.eqb (id s) sid))
                      st.(sockets) in
  let disconnectedUserId := getUserIdFromSocketId st.(onlineUsers) sid in
  if truthy_opt disconnectedUserId then
    match disconnectedUserId with
    | Some u =>
        let online := Obj.delete u st.(onlineUsers) in
        (mkState online socks,
         [Emit ToAll "get online users" (POnlineUsers (Obj.keys online))])
    | None => (mkState st.(onlineUsers) socks, [])
    end
  else (mkState st.(onlineUsers) socks, []).

Definition handle (e : event) (st : state) : state * list emit :=
  match e with
  | Connection sid => on_connection sid st
  | Setup sid ud => on_setup sid ud st
  | JoinChat sid c => on_join_chat sid c st
  | Typing sid c => on_typing sid c st
  | StopTyping sid c => on_stop_typing sid c st
  | CallUser sid u sg f n ct => on_call_user sid u sg f n ct st
  | CallAccepted sid to sg => on_call_accepted sid to sg st
  | Signal sid to sg => on_signal sid to sg st
  | CallEnded sid to => on_call_ended sid to st
  | Disconnect sid => on_disconnect sid st
  end.

(** The handlers are synchronous, so the server processes the events of
    all sockets one after the other, in some order. *)
Fixpoint run_events (es : list event) (st : state) : state * list emit :=
  match es with
  | [] => (st, [])
  | e :: r =>
      let (st1, out1) := handle e st in
      let (st2, out2) := run_events r st1 in
      (st2, out1 ++ out2)
  end.

Definition state_after (es : list event) (st : state) : state :=
  fst (run_events es st).

(** How the relay and the controllers use the registry: the connection
    recorded for an identity, if any. *)
Definition resolve (st : state) (userId : string) : list string :=
  match Obj.get userId st.(onlineUsers) with
  | Some sid => if truthy sid then [sid] else []
  | None => []
  end.

Definition isOnline (st : state) (userId : string) : bool :=
  truthy_opt (Obj.get userId st.(onlineUsers)).

(** The identities a connection id is recorded under. *)
Definition identities_of (st : state) (sid : string) : list string :=
  filter (fun u => opt_eqb (Obj.get u st.(onlineUsers)) (Some sid))
         (Obj.keys st.(onlineUsers)).

(** A connection id is recorded under at most one identity. *)
Definition one_identity_per_connection (st : state) : Prop :=
  forall sid u1 u2,
    Obj.get u1 (onlineUsers st) = Some sid ->
    Obj.get u2 (onlineUsers st) = Some sid ->
    u1 = u2.

(** The target, the event name and the payload a signalling message is
    relayed with; [None] for the other events. *)
Definition relay_of (e : event) (st : state)
  : option (string * string * payload) :=
  match e with
  | CallUser sid userToCall signalData from name callType =>
      Some (userToCall, "call-incoming",
            PCallIncoming signalData from name callType)
  | CallAccepted sid to signal =>
      Some (to, "call-accepted",
            PCallAccepted signal (socket_user_id sid st))
  | Signal sid to signal =>
      Some (to, "signal", PSignal signal (socket_user_id sid st))
  | CallEnded sid to =>
      Some (to, "call-ended", PCallEnded (socket_user_id sid st))
  | _ => None
  end.

(** Scenarios. *)
Definition alice : user_data := mkUserData (Some "u1") (Some "Alice").
Definition bob : user_data := mkUserData (Some "u2") (Some "Bob").

(** Two sockets of the same user: both connect and complete setup,
    neither disconnects. *)
Definition two_sessions : list event :=
  [ Connection "s1"; Connection "s2";
    Setup "s1" (Some alice); Setup "s2" (Some alice) ].

(** One socket that completes setup as "u1" and then as "u2". *)
Definition setup_twice : list event :=
  [ Connection "s1"; Setup "s1" (Some alice); Setup "s1" (Some bob) ].

End Server.

(* ================================================================== *)
(** ** The presence registry as the specification words it *)
(* ================================================================== *)

Module PresenceSpec.

(** A presence entry is the set of connection ids associated with an
    identity: [register] extends it, [unregister] removes the
    connection from whatever identity it is under. *)
Definition registry := list (string * string).   (* (userId, connId) *)




Definition spec_resolve (r : registry) (userId : string) : list string :=
  map snd (filter (fun p => String.eqb (fst p) userId) r).

Definition spec_isOnline (r : registry) (userId : string) : bool :=
  negb (match spec_resolve r userId with [] => true | _ => false end).



End PresenceSpec.

(* ================================================================== *)
(** ** The store and the effects a controller performs *)
(* ================================================================== *)

Definition is_hex (c : ascii) : bool :=
  let n := nat_of_ascii c in
  (Nat.leb 48 n && Nat.leb n 57) || (Nat.leb 97 n && Nat.leb n 102).

Fixpoint all_hex (s : string) : bool :=
  match s with
  | EmptyString => true
  | String c r => is_hex c && all_hex r
  end.

(** [mongoose.Types.ObjectId.isValid] on a string: 24 hex digits.
    Requests carry ids in the canonical lower-case form the server hands
    out; Mongoose would cast another spelling of the same ObjectId
    (upper-case digits), which is not modelled. *)
Definition isValid (s : string) : bool :=
  Nat.eqb (String.length s) 24 && all_hex s.

Definition hex_digit (n : N) : ascii :=
  match n with
  | 0%N => "0" | 1%N => "1" | 2%N => "2" | 3%N => "3"
  | 4%N => "4" | 5%N => "5" | 6%N => "6" | 7%N => "7"
  | 8%N => "8" | 9%N => "9" | 10%N => "a" | 11%N => "b"
  | 12%N => "c" | 13%N => "d" | 14%N => "e" | _ => "f"
  end%char.

Fixpoint hex_digits (k : nat) (n : N) (acc : string) : string :=
  match k with
  | O => acc
  | S k' => hex_digits k' (N.div n 16) (String (hex_digit (N.modulo n 16)) acc)
  end.

(** The [_id] the driver gives a new document: a counter, rendered as an
    ObjectId. *)
Definition oid_of_N (n : N) : string := hex_digits 24 n "".

Record db := mkDb {
  Chat : list chat;           (* the chats collection *)
  User : list string;         (* the _id of every user document *)
  Message : list message;     (* the messages collection *)
  oidCounter : N;             (* next ObjectId to hand out *)
  populateOk : bool           (* whether [populate] calls go through *)
}.

(** What a run leaves behind, in the order it happened. *)
Inductive action :=
| Committed (collection : string) (docId : string)   (* a write that applied *)
| Emitted (e : emit)
| LeftRoom (sid room : string).

Record world := mkWorld {
  store : db;
  io : Server.state;
  log : list action
}.

Record update_result := mkUpdateResult {
  matchedCount : nat;
  modifiedCount : nat
}.

Inductive eff : Type -> Type :=
| UserFindById (userId : string) : eff bool
| UserFindIn (ids : list string) : eff (list string)
| ChatFindOne (filter : chat -> bool) : eff (option chat)
| ChatFindById (chatId : string) : eff (option chat)
| ChatCreate (name : string) (isGroup : bool) (members : list string)
             (admin : option string) (about : string) : eff chat
| ChatFindOneAndUpdate (filter : chat -> bool) (upd : chat -> chat)
  : eff (option chat)
| ChatUpdateOne (filter : chat -> bool) (upd : chat -> chat)
  : eff update_result
| ChatDeleteOne (filter : chat -> bool) : eff unit
| MessageCreate (sender content chatId : string) : eff (option message)
| MessageDeleteMany (chatId : string) : eff nat
| Populate (c : chat) : eff (option chat)
| PopulateMessage (m : message) : eff (option chat)
| IoEmit (room ev : string) (p : payload) : eff unit
| FetchSockets (room : string) : eff (list Server.socket)
| SocketLeave (sid room : string) : eff unit.

(** A controller: a tree of effects, each continued on its result. *)
Inductive prog (R : Type) : Type :=
| Ret (r : R)
| Vis (X : Type) (e : eff X) (k : X -> prog R).

Arguments Ret {R} r.
Arguments Vis {R X} e k.

Fixpoint bind {A B : Type} (p : prog A) (f : A -> prog B) : prog B :=
  match p with
  | Ret a => f a
  | Vis e k => Vis e (fun x => bind (k x) f)
  end.

Definition trigger {X : Type} (e : eff X) : prog X := Vis e Ret.

Declare Scope prog_scope.
Delimit Scope prog_scope with prog.
Notation "x <- c1 ;; c2" := (bind c1 (fun x => c2))
  (at level 61, c1 at next level, right associativity) : prog_scope.
Notation "c1 ;;; c2" := (bind c1 (fun _ => c2))
  (at level 61, right associativity) : prog_scope.

(** [l.forEach(f)]. *)
Fixpoint forEach {A : Type} (l : list A) (f : A -> prog unit) : prog unit :=
  match l with
  | [] => Ret tt
  | a :: r => bind (f a) (fun _ => forEach r f)
  end.

(* ------------------------------------------------------------------ *)
(** *** What each effect does to the world *)

Fixpoint update_first (filter : chat -> bool) (upd : chat -> chat)
         (l : list chat) : list chat :=
  match l with
  | [] => []
  | c :: r => if filter c then upd c :: r else c :: update_first filter upd r
  end.

Fixpoint delete_first (filter : chat -> bool) (l : list chat) : list chat :=
  match l with
  | [] => []
  | c :: r => if filter c then r else c :: delete_first filter r
  end.

Definition by_id (chatId : string) (c : chat) : bool :=
  String.eqb (_id c) chatId.

(** [populate]: the references to user documents that exist are
    resolved, the others are dropped from the result. *)
Definition populated (d : db) (c : chat) : chat :=
  mkChat (_id c) (chatName c) (isGroupChat c)
         (filter (fun u => mem u (User d)) (users c))
         (latestMessage c)
         (match groupAdmin c with
          | Some a => if mem a (User d) then Some a else None
          | None => None
          end)
         (about c) (groupPic c).

Definition set_store (d : db) (w : world) : world :=
  mkWorld d (io w) (log w).

Definition set_Chat (l : list chat) (d : db) : db :=
  mkDb l (User d) (Message d) (oidCounter d) (populateOk d).

Definition logged (a : action) (w : world) : world :=
  mkWorld (store w) (io w) (log w ++ [a]).

Definition sockets_in (room : string) (st : Server.state)
  : list Server.socket :=
  filter (fun s => mem room (Server.rooms s)) (Server.sockets st).

Definition perform {X : Type} (e : eff X) (w : world) : X * world :=
  let d := store w in
  match e in eff T return T * world with
  | UserFindById u => (mem u (User d), w)
  | UserFindIn ids => (filter (fun u => mem u ids) (User d), w)
  | ChatFindOne f => (find f (Chat d), w)
  | ChatFindById cid => (find (by_id cid) (Chat d), w)
  | ChatCreate name g members admin ab =>
      let c := mkChat (oid_of_N (oidCounter d)) name g members None admin
                      ab "" in
      (c, logged (Committed "chats" (_id c))
            (set_store (mkDb (Chat d ++ [c]) (User d) (Message d)
                             (N.succ (oidCounter d)) (populateOk d)) w))
  | ChatFindOneAndUpdate f upd =>
      match find f (Chat d) with
      | Some c =>
          (Some (upd c),
           logged (Committed "chats" (_id c))
             (set_store (set_Chat (update_first f upd (Chat d)) d) w))
      | None => (None, w)
      end
  | ChatUpdateOne f upd =>
      match find f (Chat d) with
      | Some c =>
          (* with [timestamps: true] a matched document is modified *)
          (mkUpdateResult 1 1,
           logged (Committed "chats" (_id c))
             (set_store (set_Chat (update_first f upd (Chat d)) d) w))
      | None => (mkUpdateResult 0 0, w)
      end
  | ChatDeleteOne f =>
      match find f (Chat d) with
      | Some c =>
          (tt, logged (Committed "chats" (_id c))
                 (set_store (set_Chat (delete_first f (Chat d)) d) w))
      | None => (tt, w)
      end
  | MessageCreate s c cid =>
      if truthy (trim c) then
        let m := mkMessage (oid_of_N (oidCounter d)) s (trim c) cid in
        (Some m,
         logged (Committed "messages" (m_id m))
           (set_store (mkDb (Chat d) (User d) (Message d ++ [m])
                            (N.succ (oidCounter d)) (populateOk d)) w))
      else (None, w)
  | MessageDeleteMany cid =>
      let gone := filter (fun m => String.eqb (m_chat m) cid) (Message d) in
      let kept := filter (fun m => negb (String.eqb (m_chat m) cid))
                         (Message d) in
      (List.length gone,
       match gone with
       | [] => w
       | _ => logged (Committed "messages" cid)
                (set_store (mkDb (Chat d) (User d) kept (oidCounter d)
                                 (populateOk d)) w)
       end)
  | Populate c =>
      (if populateOk d then Some (populated d c) else None, w)
  | PopulateMessage m =>
      (* populate("sender") and populate("chat"): the chat, if stored *)
      (if populateOk d then find (by_id (m_chat m)) (Chat d) else None, w)
  | IoEmit room ev p => (tt, logged (Emitted (Emit (ToRoom room) ev p)) w)
  | FetchSockets room => (sockets_in room (io w), w)
  | SocketLeave sid room =>
      (tt, logged (LeftRoom sid room)
             (mkWorld (store w)
                (Server.mkState (Server.onlineUsers (io w))
                   (Server.update_socket sid (Server.leave room)
                      (Server.sockets (io w))))
                (log w)))
  end.

(** A handler run to its response, without interruption. *)
Fixpoint run {R : Type} (p : prog R) (w : world) : R * world :=
  match p with
  | Ret r => (r, w)
  | Vis e k => let (x, w') := perform e w in run (k x) w'
  end.

(** One [await] of a handler. *)
Definition step {R : Type} (p : prog R) (w : world) : prog R * world :=
  match p with
  | Ret r => (Ret r, w)
  | Vis e k => let (x, w') := perform e w in (k x, w')
  end.

Fixpoint step_nth {R : Type} (n : nat) (ps : list (prog R)) (w : world)
  : list (prog R) * world :=
  match ps, n with
  | [], _ => ([], w)
  | p :: r, O => let (p', w') := step p w in (p' :: r, w')
  | p :: r, S n' => let (r', w') := step_nth n' r w in (p :: r', w')
  end.

(** Requests in flight, advanced one effect at a time in the order the
    schedule names them. *)
Fixpoint interleave {R : Type} (schedule : list nat) (ps : list (prog R))
         (w : world) : list (prog R) * world :=
  match schedule with
  | [] => (ps, w)
  | n :: r => let (ps', w') := step_nth n ps w in interleave r ps' w'
  end.

Definition finished {R : Type} (p : prog R) : option R :=
  match p with
  | Ret r => Some r
  | Vis _ _ => None
  end.

(* ================================================================== *)
(** ** controllers/chatController.js and messageController.js *)
(* ================================================================== *)

Record response := mkResponse {
  status : nat;
  success : bool;
  res_message : string;
  res_chat : option chat
}.

Definition fail (code : nat) (m : string) : response :=
  mkResponse code false m None.

Definition ok (code : nat) (m : string) (c : option chat) : response :=
  mkResponse code true m c.

Definition string_of_nat (n : nat) : string :=
  DecimalString.NilZero.string_of_uint (Nat.to_uint n).

Definition dquote : string := String (ascii_of_nat 34) EmptyString.

Definition set_chatName (n : string) (c : chat) : chat :=
  mkChat (_id c) n (isGroupChat c) (users c) (latestMessage c)
         (groupAdmin c) (about c) (groupPic c).

Definition set_about (a : string) (c : chat) : chat :=
  mkChat (_id c) (chatName c) (isGroupChat c) (users c) (latestMessage c)
         (groupAdmin c) a (groupPic c).

Definition set_groupPic (p : string) (c : chat) : chat :=
  mkChat (_id c) (chatName c) (isGroupChat c) (users c) (latestMessage c)
         (groupAdmin c) (about c) p.

Definition set_groupAdmin (a : string) (c : chat) : chat :=
  mkChat (_id c) (chatName c) (isGroupChat c) (users c) (latestMessage c)
         (Some a) (about c) (groupPic c).

Definition set_latestMessage (m : string) (c : chat) : chat :=
  mkChat (_id c) (chatName c) (isGroupChat c) (users c) (Some m)
         (groupAdmin c) (about c) (groupPic c).

Definition set_users (l : list string) (c : chat) : chat :=
  mkChat (_id c) (chatName c) (isGroupChat c) l (latestMessage c)
         (groupAdmin c) (about c) (groupPic c).

(** [{ $addToSet: { users: { $each: ids } } }]. *)
Definition addToSet_users (ids : list string) (c : chat) : chat :=
  set_users
    (fold_left (fun acc x => if mem x acc then acc else acc ++ [x])
               ids (users c)) c.

(** [{ $pull: { users: id } }]. *)
Definition pull_user (userId : string) (c : chat) : chat :=
  set_users (filter (fun u => negb (String.eqb u userId)) (users c)) c.

(** [{ _id: chatId, isGroupChat: true, groupAdmin: requesterId }]. *)
Definition admin_filter (chatId requesterId : string) (c : chat) : bool :=
  by_id chatId c && isGroupChat c
  && opt_eqb (groupAdmin c) (Some requesterId).

(** [{ isGroupChat: false, users: { $all: [a, b], $size: 2 } }]. *)
Definition direct_filter (a b : string) (c : chat) : bool :=
  negb (isGroupChat c) && mem a (users c) && mem b (users c)
  && Nat.eqb (List.length (users c)) 2.

(** [{ _id: chatId, users: { $elemMatch: { $eq: userId } } }]. *)
Definition member_filter (chatId userId : string) (c : chat) : bool :=
  by_id chatId c && mem userId (users c).

Local Open Scope prog_scope.

(** [populateChat]. *)
Definition populateChat (c : option chat) : prog (option chat) :=
  match c with
  | None => Ret None
  | Some d => trigger (Populate d)
  end.

(** The read that follows a conditional write or read that matched
    nothing, to name the reason. *)
Definition classify (chatId requesterId m404 m400 m403 m500 : string)
  : prog response :=
  chatExists <- trigger (ChatFindById chatId) ;;
  match chatExists with
  | None => Ret (fail 404 m404)
  | Some c =>
      if negb (isGroupChat c) then Ret (fail 400 m400)
      else if negb (opt_eqb (groupAdmin c) (Some requesterId))
           then Ret (fail 403 m403)
           else Ret (fail 500 m500)
  end.

Definition accessChat (requester userId : option string) : prog response :=
  match userId with
  | None => Ret (fail 400 "UserId parameter is required")
  | Some userId =>
  if negb (truthy userId) then Ret (fail 400 "UserId parameter is required")
  else
  match requester with
  | None => Ret (fail 401 "User not authenticated")
  | Some requesterId =>
  if negb (isValid userId)
  then Ret (fail 400 "Invalid target user ID format.")
  else if String.eqb userId requesterId
  then Ret (fail 400 "Cannot create a chat with yourself.")
  else
    targetUserExists <- trigger (UserFindById userId) ;;
    if negb targetUserExists then Ret (fail 404 "Target user not found")
    else
      existingChat <- trigger (ChatFindOne (direct_filter requesterId userId)) ;;
      match existingChat with
      | Some c =>
          fullChat <- populateChat (Some c) ;;
          match fullChat with
          | None => Ret (fail 500 "Failed to retrieve chat details")
          | Some fc => Ret (ok 200 "" (Some fc))
          end
      | None =>
          createdChat <- trigger (ChatCreate "sender" false
                                    [requesterId; userId] None "") ;;
          chatToPopulate <- trigger (ChatFindById (_id createdChat)) ;;
          match chatToPopulate with
          | None => Ret (fail 500 "Failed to process created chat.")
          | Some cp =>
              fullChat <- populateChat (Some cp) ;;
              match fullChat with
              | None => Ret (fail 500 "Failed to create chat details")
              | Some fc =>
                  trigger (IoEmit userId "new_chat" (PChat fc)) ;;;
                  Ret (ok 201 "" (Some fc))
              end
          end
      end
  end
  end.

(** The ids of a request array, where every element is one. *)
Definition strings_of (l : list (option string)) : list string :=
  flat_map (fun o => match o with Some s => [s] | None => [] end) l.

Definition bad_id (o : option string) : bool :=
  match o with
  | Some s => negb (truthy s) || negb (isValid s)
  | None => true
  end.

Definition createGroupChat (creator chatName : option string)
           (reqUsers : option (list (option string))) (about : option string)
  : prog response :=
  match creator with
  | None => Ret (fail 401 "User not authenticated")
  | Some creatorId =>
  let required :=
    "Group name and at least 2 other users (IDs) are required." in
  match chatName, reqUsers with
  | None, _ | _, None => Ret (fail 400 required)
  | Some chatName, Some userIds =>
  if negb (truthy (trim chatName)) || Nat.ltb (List.length userIds) 2
  then Ret (fail 400 required)
  else
  (* the test on the de-duplicated array is the test on the array *)
  if existsb bad_id userIds
  then Ret (fail 400 "Invalid user ID format provided.")
  else
  let memberIds := dedupe (strings_of userIds) in
  let finalUsers := dedupe (creatorId :: memberIds) in
  if Nat.ltb (List.length finalUsers) 3
  then Ret (fail 400
    "Group requires at least 3 unique members (including creator).")
  else
    createdGroup <- trigger (ChatCreate (trim chatName) true finalUsers
                               (Some creatorId)
                               (match about with
                                | Some a => trim a
                                | None => ""
                                end)) ;;
    groupToPopulate <- trigger (ChatFindById (_id createdGroup)) ;;
    match groupToPopulate with
    | None => Ret (fail 500 "Failed processing created group.")
    | Some g =>
        fullGroupChat <- populateChat (Some g) ;;
        match fullGroupChat with
        | None => Ret (fail 500 "Failed getting full group details.")
        | Some fg =>
            forEach (users fg)
              (fun userIdString =>
                 if negb (String.eqb userIdString creatorId)
                 then trigger (IoEmit userIdString "added to group" (PChat fg))
                 else Ret tt) ;;;
            Ret (ok 201 "Group chat created successfully" (Some fg))
        end
    end
  end
  end.

Definition renameGroup (requester chatId chatName : option string)
  : prog response :=
  match requester with
  | None => Ret (fail 401 "Not authenticated")
  | Some requesterId =>
  match chatId, chatName with
  | None, _ | _, None => Ret (fail 400 "Chat ID and new name required")
  | Some chatId, Some chatName =>
  if negb (truthy chatId) || negb (truthy (trim chatName))
  then Ret (fail 400 "Chat ID and new name required")
  else if negb (isValid chatId)
  then Ret (fail 400 "Invalid Chat ID format.")
  else
    updatedChatRaw <- trigger (ChatFindOneAndUpdate
                                 (admin_filter chatId requesterId)
                                 (set_chatName (trim chatName))) ;;
    match updatedChatRaw with
    | None =>
        classify chatId requesterId "Chat not found"
                 "Only groups can be renamed" "Admin only action"
                 "Failed to rename group for unknown reason."
    | Some raw =>
        updatedChat <- populateChat (Some raw) ;;
        match updatedChat with
        | None =>
            Ret (ok 200 "Group renamed, but failed to refresh details."
                    (Some raw))
        | Some uc =>
            trigger (IoEmit chatId "group updated" (PChat uc)) ;;;
            Ret (ok 200 "Group renamed successfully" (Some uc))
        end
    end
  end
  end.

Definition updateGroupAbout (requester chatId about : option string)
  : prog response :=
  match requester with
  | None => Ret (fail 401 "Not authenticated")
  | Some requesterId =>
  match chatId, about with
  | None, _ | _, None => Ret (fail 400 "Chat ID and 'about' text required")
  | Some chatId, Some about =>
  if negb (truthy chatId)
  then Ret (fail 400 "Chat ID and 'about' text required")
  else if negb (isValid chatId)
  then Ret (fail 400 "Invalid Chat ID format.")
  else
    updatedChatRaw <- trigger (ChatFindOneAndUpdate
                                 (admin_filter chatId requesterId)
                                 (set_about (trim about))) ;;
    match updatedChatRaw with
    | None =>
        classify chatId requesterId "Chat not found"
                 "Only groups can be updated" "Admin only action"
                 "Failed to update description."
    | Some raw =>
        updatedChat <- populateChat (Some raw) ;;
        match updatedChat with
        | None =>
            Ret (ok 200
              "Group description updated, but failed to refresh details."
              (Some raw))
        | Some uc =>
            trigger (IoEmit chatId "group updated" (PChat uc)) ;;;
            Ret (ok 200 "Group description updated successfully" (Some uc))
        end
    end
  end
  end.

Definition updateGroupPic (requester chatId groupPic : option string)
  : prog response :=
  match requester with
  | None => Ret (fail 401 "Not authenticated")
  | Some requesterId =>
  match chatId, groupPic with
  | None, _ | _, None => Ret (fail 400 "Chat ID and picture URL required.")
  | Some chatId, Some pic =>
  if negb (truthy chatId) || negb (truthy pic)
  then Ret (fail 400 "Chat ID and picture URL required.")
  else if negb (isValid chatId)
  then Ret (fail 400 "Invalid Chat ID format.")
  else
    updatedChatRaw <- trigger (ChatFindOneAndUpdate
                                 (admin_filter chatId requesterId)
                                 (set_groupPic pic)) ;;
    match updatedChatRaw with
    | None =>
        classify chatId requesterId "Chat not found"
                 "Can only set picture for groups."
                 "Only admin can update picture."
                 "Failed to update group picture."
    | Some raw =>
        updatedChat <- populateChat (Some raw) ;;
        match updatedChat with
        | None =>
            Ret (ok 200
              "Group picture updated, but failed to refresh details."
              (Some raw))
        | Some uc =>
            trigger (IoEmit chatId "group updated" (PChat uc)) ;;;
            Ret (ok 200 "Group picture updated successfully." (Some uc))
        end
    end
  end
  end.

Definition addToGroup (requester chatId : option string)
           (reqUserIds : option (list (option string))) : prog response :=
  match requester with
  | None => Ret (fail 401 "Not authenticated")
  | Some requesterId =>
  let required :=
    "Chat ID and a non-empty array of user IDs are required" in
  match chatId, reqUserIds with
  | None, _ | _, None => Ret (fail 400 required)
  | Some chatId, Some userIds =>
  if negb (truthy chatId) || Nat.eqb (List.length userIds) 0
  then Ret (fail 400 required)
  else if negb (isValid chatId)
  then Ret (fail 400 "Invalid Chat ID format.")
  else
  let invalidUserIds := filter bad_id userIds in
  if Nat.ltb 0 (List.length invalidUserIds)
  then Ret (fail 400
         ("Invalid or missing User ID format provided for: " ++
          String.concat ", "
            (map (fun o => match o with Some s => s | None => "" end)
                 invalidUserIds)))
  else
    found <- trigger (ChatFindOne (admin_filter chatId requesterId)) ;;
    match found with
    | None =>
        classify chatId requesterId "Chat not found" "Not a group chat"
                 "Admin only action" "Failed to verify chat/admin status."
    | Some c =>
        let uniqueUserIdsToAdd := dedupe (strings_of userIds) in
        let currentMemberIds := users c in
        let potentialNewMemberIds :=
          filter (fun i => negb (String.eqb i requesterId)
                           && negb (mem i currentMemberIds))
                 uniqueUserIdsToAdd in
        if Nat.eqb (List.length potentialNewMemberIds) 0
        then Ret (fail 400
  "No new valid users selected, or all selected users are already in the group.")
        else
          existingUsers <- trigger (UserFindIn potentialNewMemberIds) ;;
          let finalNewMemberIds := existingUsers in
          if negb (Nat.eqb (List.length finalNewMemberIds)
                           (List.length potentialNewMemberIds))
             && Nat.eqb (List.length finalNewMemberIds) 0
          then Ret (fail 400 "None of the selected users exist.")
          else if Nat.eqb (List.length finalNewMemberIds) 0
          then Ret (fail 400 "No valid new members to add.")
          else
            updateResult <- trigger (ChatUpdateOne (by_id chatId)
                                       (addToSet_users finalNewMemberIds)) ;;
            if Nat.eqb (modifiedCount updateResult) 0
               && Nat.eqb (matchedCount updateResult) 0
            then Ret (fail 404 "Chat not found during update.")
            else
              chatAfterUpdate <- trigger (ChatFindById chatId) ;;
              updatedChat <- populateChat chatAfterUpdate ;;
              let n := string_of_nat (List.length finalNewMemberIds) in
              match updatedChat with
              | None =>
                  Ret (ok 200
                    ("Added " ++ n ++
                     " member(s), but failed to refresh full details.")
                    chatAfterUpdate)
              | Some uc =>
                  trigger (IoEmit chatId "group updated" (PChat uc)) ;;;
                  forEach finalNewMemberIds
                    (fun newMemberId =>
                       trigger (IoEmit newMemberId "added to group"
                                       (PChat uc))) ;;;
                  Ret (ok 200 ("Successfully added " ++ n ++ " member(s).")
                          (Some uc))
              end
    end
  end
  end.

Definition removeFromGroup (requester chatId userId : option string)
  : prog response :=
  match requester with
  | None => Ret (fail 401 "Not authenticated")
  | Some requesterId =>
  match chatId, userId with
  | None, _ | _, None =>
      Ret (fail 400 "Chat ID and User ID to remove are required")
  | Some chatId, Some userId =>
  if negb (truthy chatId) || negb (truthy userId)
  then Ret (fail 400 "Chat ID and User ID to remove are required")
  else if negb (isValid chatId) || negb (isValid userId)
  then Ret (fail 400 "Invalid ID format provided.")
  else
    found <- trigger (ChatFindById chatId) ;;
    match found with
    | None => Ret (fail 404 "Chat not found")
    | Some c =>
    if negb (isGroupChat c)
    then Ret (fail 400 "Cannot remove members from a non-group chat")
    else
    let userToRemoveId := userId in
    let isAdmin := opt_eqb (groupAdmin c) (Some requesterId) in
    let isSelfRemoval := String.eqb userToRemoveId requesterId in
    if negb isAdmin && negb isSelfRemoval
    then Ret (fail 403 "Only admins can remove other users.")
    else
    let userExistsInChat := mem userToRemoveId (users c) in
    if negb userExistsInChat
    then Ret (fail 400 "User specified is not a member of this group.")
    else
    if isAdmin && isSelfRemoval && Nat.ltb 1 (List.length (users c))
    then Ret (fail 400
           "Admin must transfer ownership before leaving the group.")
    else
      updateResult <- trigger (ChatFindOneAndUpdate (by_id chatId)
                                 (pull_user userToRemoveId)) ;;
      match updateResult with
      | None => Ret (fail 404 "Chat not found during removal update.")
      | Some raw =>
          updatedChat <- populateChat (Some raw) ;;
          match updatedChat with
          | None =>
              Ret (ok 200
                "User removed, but failed to refresh group details."
                (Some raw))
          | Some uc =>
              trigger (IoEmit userToRemoveId "removed from group"
                              (PChatRef chatId (chatName uc))) ;;;
              trigger (IoEmit chatId "user left group" (PChat uc)) ;;;
              socks <- trigger (FetchSockets userToRemoveId) ;;
              forEach socks
                (fun s =>
                   if mem chatId (Server.rooms s)
                   then trigger (SocketLeave (Server.id s) chatId)
                   else Ret tt) ;;;
              Ret (ok 200
                     (if isSelfRemoval then "You have left the group."
                      else "User removed successfully.")
                     (Some uc))
          end
      end
    end
  end
  end.

(** [{ _id, isGroupChat: true, groupAdmin: requesterId, users: newAdminId }]. *)
Definition transfer_filter (chatId requesterId newAdminId : string)
           (c : chat) : bool :=
  admin_filter chatId requesterId c && mem newAdminId (users c).

Definition transferAdmin (requester chatId newAdminId : option string)
  : prog response :=
  match requester with
  | None => Ret (fail 401 "Not authenticated")
  | Some requesterId =>
  match chatId, newAdminId with
  | None, _ | _, None => Ret (fail 400 "Chat ID and new admin ID required")
  | Some chatId, Some newAdminId =>
  if negb (truthy chatId) || negb (truthy newAdminId)
  then Ret (fail 400 "Chat ID and new admin ID required")
  else if negb (isValid chatId) || negb (isValid newAdminId)
  then Ret (fail 400 "Invalid ID format.")
  else if String.eqb requesterId newAdminId
  then Ret (fail 400 "Cannot transfer admin role to yourself.")
  else
    updatedChatRaw <- trigger (ChatFindOneAndUpdate
                                 (transfer_filter chatId requesterId newAdminId)
                                 (set_groupAdmin newAdminId)) ;;
    match updatedChatRaw with
    | None =>
        found <- trigger (ChatFindById chatId) ;;
        match found with
        | None => Ret (fail 404 "Chat not found")
        | Some c =>
            if negb (isGroupChat c) then Ret (fail 400 "Not a group chat")
            else if negb (opt_eqb (groupAdmin c) (Some requesterId))
            then Ret (fail 403
                   "Only the current admin can transfer the role.")
            else if negb (mem newAdminId (users c))
            then Ret (fail 400
                   "The selected user is not a member of this group.")
            else Ret (fail 500 "Failed to transfer admin role.")
        end
    | Some raw =>
        updatedChat <- populateChat (Some raw) ;;
        match updatedChat with
        | None =>
            Ret (ok 200
              "Admin role transferred, but failed to refresh details."
              (Some raw))
        | Some uc =>
            trigger (IoEmit chatId "group updated" (PChat uc)) ;;;
            Ret (ok 200 "Admin role transferred successfully." (Some uc))
        end
    end
  end
  end.

(** [chatId] is a path parameter of the route, always a string. *)
Definition deleteGroup (requester : option string) (chatId : string)
  : prog response :=
  match requester with
  | None => Ret (fail 401 "Not authenticated")
  | Some requesterId =>
  if negb (isValid chatId) then Ret (fail 400 "Invalid Chat ID format")
  else
    found <- trigger (ChatFindOne (admin_filter chatId requesterId)) ;;
    match found with
    | None =>
        classify chatId requesterId "Group chat not found."
                 "Cannot delete a non-group chat this way."
                 "Only the group admin can delete the group."
                 "Failed to verify group/admin status for deletion."
    | Some c =>
        let name := chatName c in
        (* Emit BEFORE deleting from DB *)
        trigger (IoEmit chatId "group deleted" (PChatRef chatId name)) ;;;
        socketsInRoom <- trigger (FetchSockets chatId) ;;
        forEach socketsInRoom
          (fun s => trigger (SocketLeave (Server.id s) chatId)) ;;;
        trigger (ChatDeleteOne (by_id chatId)) ;;;
        deleted <- trigger (MessageDeleteMany chatId) ;;
        Ret (ok 200
               ("Group chat " ++ dquote ++ name ++ dquote ++
                " deleted successfully.")
               None)
    end
  end.

(** [sendMessage]; [req.user] is the authenticated user. A thrown error
    reaches [errorHandler], which answers with its status and message. *)
Definition sendMessage (requesterId : string) (content chatId : option string)
  : prog response :=
  let required := "Message content and chatId are required" in
  match content, chatId with
  | None, _ | _, None => Ret (fail 400 required)
  | Some content, Some chatId =>
  if negb (truthy content) || negb (truthy chatId)
  then Ret (fail 400 required)
  else if negb (isValid chatId)
  then Ret (fail 404 "Resource not found (Invalid ID)")   (* CastError *)
  else
    chatExists <- trigger (ChatFindOne (member_filter chatId requesterId)) ;;
    match chatExists with
    | None =>
        Ret (fail 403 "User is not authorized to send messages to this chat")
    | Some _ =>
        created <- trigger (MessageCreate requesterId content chatId) ;;
        match created with
        | None =>
            Ret (fail 500
  "Failed to send message: Message validation failed: content: Message content cannot be empty")
        | Some m =>
            chatOfMessage <- trigger (PopulateMessage m) ;;
            match chatOfMessage with
            | None =>
                Ret (fail 500
  "Failed to send message: Failed to retrieve necessary chat details after saving message.")
            | Some _ =>
                trigger (ChatFindOneAndUpdate (by_id chatId)
                           (set_latestMessage (m_id m))) ;;;
                trigger (IoEmit chatId "message received" (PMessage m)) ;;;
                trigger (IoEmit chatId "latest message update" (PMessage m)) ;;;
                Ret (ok 201 "" None)
            end
        end
    end
  end.

(** The mutation entry points of the HTTP routes. *)
Inductive request :=
| AccessChat (requester userId : option string)
| CreateGroupChat (creator chatName : option string)
                  (users : option (list (option string)))
                  (about : option string)
| RenameGroup (requester chatId chatName : option string)
| UpdateGroupAbout (requester chatId about : option string)
| UpdateGroupPic (requester chatId groupPic : option string)
| AddToGroup (requester chatId : option string)
             (userIds : option (list (option string)))
| RemoveFromGroup (requester chatId userId : option string)
| TransferAdmin (requester chatId newAdminId : option string)
| DeleteGroup (requester : option string) (chatId : string)
| SendMessage (requester : string) (content chatId : option string).

Definition handler (r : request) : prog response :=
  match r with
  | AccessChat q u => accessChat q u
  | CreateGroupChat q n us a => createGroupChat q n us a
  | RenameGroup q c n => renameGroup q c n
  | UpdateGroupAbout q c a => updateGroupAbout q c a
  | UpdateGroupPic q c p => updateGroupPic q c p
  | AddToGroup q c us => addToGroup q c us
  | RemoveFromGroup q c u => removeFromGroup q c u
  | TransferAdmin q c n => transferAdmin q c n
  | DeleteGroup q c => deleteGroup q c
  | SendMessage q ct c => sendMessage q ct c
  end.

Definition is_delete (r : request) : bool :=
  match r with
  | DeleteGroup _ _ => true
  | _ => false
  end.

(** A world with the given store, nobody connected and nothing logged. *)
Definition world_of (d : db) : world := mkWorld d Server.initial [].

(* ------------------------------------------------------------------ *)
(** *** Reading a log *)

Definition is_commit (a : action) : bool :=
  match a with
  | Committed _ _ => true
  | _ => false
  end.

Definition is_emit (a : action) : bool :=
  match a with
  | Emitted _ => true
  | _ => false
  end.

(** No event is emitted before the first write that applied. *)
Fixpoint emits_follow_commit (l : list action) : bool :=
  match l with
  | [] => true
  | a :: r =>
      if is_commit a then true
      else negb (is_emit a) && emits_follow_commit r
  end.

(** No write applies before the last event is emitted. *)
Fixpoint commits_follow_emits (l : list action) : bool :=
  match l with
  | [] => true
  | a :: r =>
      if is_commit a then negb (existsb is_emit r)
      else commits_follow_emits r
  end.

(** What a request adds to the log of a world that starts empty. *)
Definition trace (r : request) (d : db) (s : Server.state) : list action :=
  log (snd (run (handler r) (mkWorld d s []))).

(** After the first event is emitted, no write applies. *)
Fixpoint no_commit_after_emit (l : list action) : bool :=
  match l with
  | [] => true
  | a :: r =>
      if is_emit a then negb (existsb is_commit r)
      else no_commit_after_emit r
  end.

(* ------------------------------------------------------------------ *)
(** *** Reading a program *)

Definition is_write_eff {X : Type} (e : eff X) : bool :=
  match e with
  | ChatCreate _ _ _ _ _ | ChatFindOneAndUpdate _ _ | ChatUpdateOne _ _
  | ChatDeleteOne _ | MessageCreate _ _ _ | MessageDeleteMany _ => true
  | _ => false
  end.

Definition is_emit_eff {X : Type} (e : eff X) : bool :=
  match e with
  | IoEmit _ _ _ => true
  | _ => false
  end.

(** The writes whose result tells whether they applied. *)
Definition result_tells {X : Type} (e : eff X) : bool :=
  match e with
  | ChatCreate _ _ _ _ _ | ChatFindOneAndUpdate _ _ | ChatUpdateOne _ _
  | MessageCreate _ _ _ => true
  | _ => false
  end.

Definition is_some {A : Type} (o : option A) : bool :=
  match o with
  | Some _ => true
  | None => false
  end.

(** Whether the result of a write says that it applied. *)
Definition applied {X : Type} (e : eff X) : X -> bool :=
  match e in eff T return T -> bool with
  | ChatCreate _ _ _ _ _ => fun _ => true
  | ChatFindOneAndUpdate _ _ => fun r => is_some r
  | ChatUpdateOne _ _ =>
      fun r => negb (Nat.eqb (modifiedCount r) 0
                     && Nat.eqb (matchedCount r) 0)
  | MessageCreate _ _ _ => fun r => is_some r
  | _ => fun _ => false
  end.

(** Where a handler stands: nothing written yet, a write has applied,
    an event has been emitted. *)
Inductive phase := Before | Written | Announced.

(** A handler that writes first and emits afterwards: no emit while
    nothing has been written, no write once an event is out. *)
Fixpoint commit_first {R : Type} (ph : phase) (p : prog R) : Prop :=
  match p with
  | Ret _ => True
  | Vis e k =>
      match ph with
      | Before =>
          is_emit_eff e = false
          /\ (is_write_eff e = true -> result_tells e = true)
          /\ forall x, commit_first (if applied e x then Written else Before)
                                    (k x)
      | Written =>
          forall x, commit_first (if is_emit_eff e then Announced else Written)
                                 (k x)
      | Announced =>
          is_write_eff e = false /\ forall x, commit_first Announced (k x)
      end
  end.

Fixpoint ordered (ph : phase) (l : list action) : bool :=
  match l with
  | [] => true
  | a :: r =>
      match ph with
      | Before =>
          negb (is_emit a) && ordered (if is_commit a then Written else Before) r
      | Written => ordered (if is_emit a then Announced else Written) r
      | Announced => negb (is_commit a) && ordered Announced r
      end
  end.

(** A handler that emits first and writes afterwards. *)
Fixpoint emit_first {R : Type} (written : bool) (p : prog R) : Prop :=
  match p with
  | Ret _ => True
  | Vis e k =>
      (written = true -> is_emit_eff e = false)
      /\ forall x, emit_first (written || is_write_eff e) (k x)
  end.

Fixpoint emits_then_commits (written : bool) (l : list action) : bool :=
  match l with
  | [] => true
  | a :: r =>
      (if written then negb (is_emit a) else true)
      && emits_then_commits (written || is_commit a) r
  end.

(** A program without writes. *)
Fixpoint quiet {R : Type} (p : prog R) : Prop :=
  match p with
  | Ret _ => True
  | Vis e k => is_write_eff e = false /\ forall x, quiet (k x)
  end.

(** A program without writes and without emits. *)
Fixpoint silent {R : Type} (p : prog R) : Prop :=
  match p with
  | Ret _ => True
  | Vis e k =>
      is_write_eff e = false /\ is_emit_eff e = false
      /\ forall x, silent (k x)
  end.

(** Every write of the program is a conditional update whose filter
    holds only of the chat [chatId] while [requesterId] is its admin. *)
Fixpoint writes_guarded {R : Type} (chatId requesterId : string)
         (p : prog R) : Prop :=
  match p with
  | Ret _ => True
  | Vis e k =>
      match e with
      | ChatFindOneAndUpdate f _ =>
          forall c, f c = true -> admin_filter chatId requesterId c = true
      | _ => is_write_eff e = false
      end
      /\ forall x, writes_guarded chatId requesterId (k x)
  end.

(* ------------------------------------------------------------------ *)
(** *** Who may change a group *)

(** [requesterId] is the admin of no stored chat [chatId]. *)
Definition not_admin (requesterId chatId : string) (d : db) : Prop :=
  forall c, In c (Chat d) -> _id c = chatId ->
            groupAdmin c <> Some requesterId.


(** The request is answered with a failure and the world (store,
    rooms, log) is as it was. *)
Definition rejected (p : prog response) (w : world) : Prop :=
  exists code msg, run p w = (fail code msg, w) /\ 400 <= code.

(** The direct conversations of a pair of identities. *)
Definition direct_chats (a b : string) (d : db) : list chat :=
  filter (direct_filter a b) (Chat d).

(** The chat the first create-direct of a pair inserts. *)
Definition new_direct (a b : string) (d : db) : chat :=
  mkChat (oid_of_N (oidCounter d)) "sender" false [a; b] None None "" "".

(* ------------------------------------------------------------------ *)
(** *** Scenarios *)

Module Scenario.

Definition ann : string := "aaaaaaaaaaaaaaaaaaaaaaaa".
Definition bea : string := "bbbbbbbbbbbbbbbbbbbbbbbb".
Definition cal : string := "cccccccccccccccccccccccc".
Definition dan : string := "dddddddddddddddddddddddd".
(** A well-formed id that no user document has. *)
Definition nobody : string := "eeeeeeeeeeeeeeeeeeeeeeee".
Definition team_id : string := "0123456789abcdef01234567".

Definition team : chat :=
  mkChat team_id "team" true [ann; bea; cal] None (Some ann) "" "".

(** One group, admin [ann]; four users; one message in the group. *)
Definition d0 : db :=
  mkDb [team] [ann; bea; cal; dan]
       [mkMessage "000000000000000000000001" bea "hi" team_id] 7 true.

(** One socket, in the room of the group. *)
Definition joined : Server.state :=
  Server.state_after
    [Server.Connection "s1"; Server.JoinChat "s1" (Some team_id)]
    Server.initial.

(** A group whose admin is its only member. *)
Definition solo : chat :=
  mkChat team_id "solo" true [ann] None (Some ann) "" "".

Definition d_solo : db := mkDb [solo] [ann; bea] [] 7 true.

(** Two requests of [ann] in flight: add [dan], hand the group to
    [bea]. *)
Definition racing : list (prog response) :=
  [ addToGroup (Some ann) (Some team_id) (Some [Some dan]);
    transferAdmin (Some ann) (Some team_id) (Some bea) ].

(** Two requests of [ann] in flight: remove [cal], hand the group to
    [bea]. *)
Definition racing_removal : list (prog response) :=
  [ removeFromGroup (Some ann) (Some team_id) (Some cal);
    transferAdmin (Some ann) (Some team_id) (Some bea) ].

End Scenario.

(* ================================================================== *)
(** ** The read-only routes and the error middleware *)
(* ================================================================== *)


Definition is_hex_any (c : ascii) : bool :=
  let n := nat_of_ascii c in
  is_hex c || (Nat.leb 65 n && Nat.leb n 70).

Fixpoint all_hex_any (s : string) : bool :=
  match s with
  | EmptyString => true
  | String c r => is_hex_any c && all_hex_any r
  end.

(** [chatId.match(/^[0-9a-fA-F]{24}$/)]. *)
Definition matches_oid (s : string) : bool :=
  Nat.eqb (String.length s) 24 && all_hex_any s.

Record messages_response := mkMessagesResponse {
  mr_status : nat;
  mr_error : string;
  mr_messages : list message
}.

Definition lower_hex (c : ascii) : ascii :=
  let n := nat_of_ascii c in
  if Nat.leb 65 n && Nat.leb n 70 then ascii_of_nat (n + 32) else c.

(** The cast of a string of 24 hex digits to an ObjectId, which is
    written in lower case; the route's own pattern lets upper-case digits
    through, so here the cast is modelled. *)
Fixpoint canonical (s : string) : string :=
  match s with
  | EmptyString => EmptyString
  | String c r => String (lower_hex c) (canonical r)
  end.

(** [fetchMessages]: two reads and no write, so a function of the store.
    Both queries cast [chatId] to an ObjectId. The messages come sorted
    by [createdAt], the order they were inserted in. *)
Definition fetchMessages (requesterId chatId : string) (d : db)
  : messages_response :=
  if negb (matches_oid chatId)
  then mkMessagesResponse 400 "Invalid Chat ID format" []
  else
    let oid := canonical chatId in
    match find (member_filter oid requesterId) (Chat d) with
    | None =>
        mkMessagesResponse 403
          "Not authorized to view messages for this chat" []
    | Some _ =>
        mkMessagesResponse 200 ""
          (filter (fun m => String.eqb (m_chat m) oid) (Message d))
    end.

(** An error as [errorHandler] reads it. *)
Record js_error := mkError {
  err_statusCode : option nat;          (* err.statusCode *)
  err_name : string;                    (* err.name *)
  err_kind : option string;             (* err.kind *)
  err_code : option N;                  (* err.code *)
  err_message : string;                 (* err.message *)
  err_keyValue : list string;           (* Object.keys(err.keyValue) *)
  err_errors : list string              (* the messages of err.errors *)
}.

(** [a || b] on numbers: 0 is falsy. *)
Definition num_or (a b : nat) : nat :=
  match a with
  | O => b
  | _ => a
  end.

(** [errorHandler]: the status and the message it answers with, given
    the status the response had when the error was raised. *)
Definition errorHandler (err : js_error) (resStatusCode : nat)
  : nat * string :=
  let statusCode :=
    num_or (num_or (match err_statusCode err with
                    | Some n => n
                    | None => 0
                    end)
                   (if Nat.eqb resStatusCode 200 then 500 else resStatusCode))
           500 in
  let r1 :=
    if String.eqb (err_name err) "CastError"
       && opt_eqb (err_kind err) (Some "ObjectId")
    then (404, "Resource not found (Invalid ID)")
    else (statusCode, err_message err) in
  let r2 :=
    if match err_code err with
       | Some n => N.eqb n 11000
       | None => false
       end
    then (400,
          ("Duplicate field value entered for " ++
           match err_keyValue err with
           | f :: _ => f
           | [] => "undefined"
           end ++ ". Please use another value.")%string)
    else r1 in
  if String.eqb (err_name err) "ValidationError"
  then (400, String.concat ". " (err_errors err))
  else r2.

(** [new Error(message)]. *)
Definition plain_error (m : string) : js_error :=
  mkError None "Error" None None m [] [].

(** [notFound], followed by [errorHandler]. *)
Definition notFound (method originalUrl : string) : nat * string :=
  errorHandler
    (plain_error ("Not Found - " ++ method ++ " " ++ originalUrl)%string)
    404.

(* ------------------------------------------------------------------ *)
(** *** What a handler may do to the chats *)

(** Every update the program makes to a chat keeps it within [rel];
    it neither inserts nor deletes a chat. *)
Fixpoint updates_within {R : Type} (rel : chat -> chat -> Prop)
         (p : prog R) : Prop :=
  match p with
  | Ret _ => True
  | Vis e k =>
      match e with
      | ChatFindOneAndUpdate _ upd | ChatUpdateOne _ upd =>
          forall c, rel c (upd c)
      | MessageCreate _ _ _ => True
      | _ => is_write_eff e = false
      end
      /\ forall x, updates_within rel (k x)
  end.

(** Same conversation, same members, same admin. *)
Definition same_membership (c c' : chat) : Prop :=
  _id c' = _id c /\ isGroupChat c' = isGroupChat c
  /\ users c' = users c /\ groupAdmin c' = groupAdmin c
  /\ latestMessage c' = latestMessage c.

(** Same conversation and admin, no member lost. *)
Definition members_kept (c c' : chat) : Prop :=
  _id c' = _id c /\ isGroupChat c' = isGroupChat c
  /\ groupAdmin c' = groupAdmin c /\ chatName c' = chatName c
  /\ incl (users c) (users c').

(** Same conversation and admin, no member gained. *)
Definition members_not_added (c c' : chat) : Prop :=
  _id c' = _id c /\ isGroupChat c' = isGroupChat c
  /\ groupAdmin c' = groupAdmin c /\ chatName c' = chatName c
  /\ incl (users c') (users c).

(** Everything but the admin is the same. *)
Definition same_but_admin (c c' : chat) : Prop :=
  _id c' = _id c /\ isGroupChat c' = isGroupChat c
  /\ users c' = users c /\ chatName c' = chatName c
  /\ about c' = about c /\ groupPic c' = groupPic c
  /\ latestMessage c' = latestMessage c.

(** Everything but the latest message is the same. *)
Definition same_but_latest (c c' : chat) : Prop :=
  _id c' = _id c /\ isGroupChat c' = isGroupChat c
  /\ users c' = users c /\ groupAdmin c' = groupAdmin c
  /\ chatName c' = chatName c /\ about c' = about c
  /\ groupPic c' = groupPic c.

(** What each request may change in a stored chat. *)
Definition allowed_change (r : request) : chat -> chat -> Prop :=
  match r with
  | RenameGroup _ _ _ | UpdateGroupAbout _ _ _ | UpdateGroupPic _ _ _ =>
      same_membership
  | AddToGroup _ _ _ => members_kept
  | RemoveFromGroup _ _ _ => members_not_added
  | TransferAdmin _ _ _ => same_but_admin
  | SendMessage _ _ _ => same_but_latest
  | _ => fun _ _ => True
  end.

Definition keeps_chats (r : request) : bool :=
  match r with
  | AccessChat _ _ | CreateGroupChat _ _ _ _ | DeleteGroup _ _ => false
  | _ => true
  end.





(** The connection is recorded under no identity. *)
Definition unrecorded (c : string) (st : Server.state) : Prop :=
  forall u, Obj.get u (Server.onlineUsers st) <> Some c.


Record chats_response := mkChatsResponse {
  cr_status : nat;
  cr_count : nat;
  cr_chats : list chat
}.

(** [fetchChats]: reads only, so a function of the store. The chats come
    sorted by [updatedAt]; the store keeps no timestamps, so the sort is
    a parameter, [byUpdatedAt]. Each chat is populated on its own, and
    those that could not be populated are left out. *)
Definition fetchChats (byUpdatedAt : list chat -> list chat)
           (requester : option string) (d : db) : chats_response :=
  match requester with
  | None => mkChatsResponse 401 0 []
  | Some userId =>
      if negb (truthy userId) then mkChatsResponse 401 0 []
      else
        let chats :=
          byUpdatedAt
            (filter (fun c => mem userId (users c)) (Chat d)) in
        match chats with
        | [] => mkChatsResponse 200 0 []
        | _ =>
            let successfullyPopulatedChats :=
              flat_map (fun c => if populateOk d then [populated d c]
                                 else [])
                       chats in
            mkChatsResponse 200 (List.length successfullyPopulatedChats)
                            successfullyPopulatedChats
        end
  end.

(** The events whose handlers write [onlineUsers]. *)
Definition presence_event (e : Server.event) : bool :=
  match e with
  | Server.Setup _ _ | Server.Disconnect _ => true
  | _ => false
  end.

(** Every [userData] a socket carries came with a setup of that socket
    in [hist]. *)
Definition setups_recorded (hist : list Server.event) (st : Server.state)
  : Prop :=
  forall s d,
    In s (Server.sockets st) -> Server.userData s = Some d ->
    In (Server.Setup (Server.id s) (Some d)) hist.

(** An id as the server itself writes ids: if it has the form of an
    ObjectId at all, its hex digits are in lower case. On such an id
    [ObjectId.isValid], which accepts both cases, and [isValid] agree,
    and the cast of the driver leaves the string as it is. *)
Definition canonically_spelled (s : string) : Prop :=
  matches_oid s = isValid s.

(** Every id that the array of a request names is spelled that way. *)
Definition ids_canonically_spelled (l : option (list (option string)))
  : Prop :=
  forall ids u,
    l = Some ids -> In (Some u) ids -> canonically_spelled u.


Fixpoint strings_eqb (l1 l2 : list string) : bool :=
  match l1, l2 with
  | [], [] => true
  | x :: r1, y :: r2 => String.eqb x y && strings_eqb r1 r2
  | _, _ => false
  end.

(** A direct conversation of [a] and [b] as the specification words it:
    not a group, and its members are exactly the two. *)
Definition is_direct_between (a b : string) (c : chat) : bool :=
  negb (isGroupChat c)
  && (strings_eqb (users c) [a; b] || strings_eqb (users c) [b; a]).

Definition direct_between (a b : string) (c : chat) : Prop :=
  isGroupChat c = false /\ (users c = [a; b] \/ users c = [b; a]).

(** The direct conversations of a pair, counted by that wording. *)
Definition count_direct_between (a b : string) (d : db) : nat :=
  List.length (filter (is_direct_between a b) (Chat d)).

Module RelayScenario.
Import Server.

(** Three sockets: "s1" has completed setup as "u1" and "s2" as "u2";
    "s3" has completed no setup and has joined the room that carries
    the id of "s2". *)
Definition listening : state :=
  state_after
    [ Connection "s1"; Connection "s2"; Connection "s3";
      Setup "s1" (Some alice); Setup "s2" (Some bob);
      JoinChat "s3" (Some "s2") ]
    initial.

End RelayScenario.

Module MoreScenarios.
Import Scenario.

Definition pair_id : string := "0123456789abcdef0123aaaa".

(** The direct conversation of [ann] and [bea]. *)
Definition pair : chat :=
  mkChat pair_id "sender" false [ann; bea] None None "" "".

(** The group, the direct conversation, a message in each. *)
Definition d1 : db :=
  mkDb [team; pair] [ann; bea; cal; dan]
       [ mkMessage "000000000000000000000001" bea "hi" team_id;
         mkMessage "000000000000000000000002" ann "psst" pair_id ]
       7 true.

End MoreScenarios.

(* ================================================================== *)
(** * Properties *)
(* ================================================================== *)

Module ObjFacts.





End ObjFacts.

Lemma opt_eqb_eq a b : opt_eqb a b = true <-> a = b.
Proof.
  destruct a, b; simpl; try (split; congruence).
  rewrite String.eqb_eq. split; congruence.
Qed.

Module ServerFacts.
Import Server.


Lemma state_after_app es1 es2 st :
  state_after (es1 ++ es2) st = state_after es2 (state_after es1 st).
Proof.
  unfold state_after. revert st.
  induction es1 as [|e r IH]; intros st; simpl; [reflexivity|].
  destruct (handle e st) as [st1 out1] eqn:E1.
  specialize (IH st1).
  destruct (run_events (r ++ es2) st1) as [st2 out2].
  destruct (run_events r st1) as [st3 out3]. simpl in *.
  exact IH.
Qed.


End ServerFacts.

Module Presence.
Import Server ServerFacts.


(** C4, on the code: after one connection completes setup under a
    second identity it is still recorded under the first, the
    invariant is broken, and its disconnect removes only the entry that
    [getUserIdFromSocketId] finds first: the other identity stays
    online on a connection that is gone. *)
Theorem setup_twice_two_identities :
  let st := state_after setup_twice initial in
  onlineUsers st = [("u1", "s1"); ("u2", "s1")]
  /\ identities_of st "s1" = ["u1"; "u2"]
  /\ ~ one_identity_per_connection st
  /\ onlineUsers (state_after [Disconnect "s1"] st) = [("u2", "s1")]
  /\ sockets (state_after [Disconnect "s1"] st) = []
  /\ isOnline (state_after [Disconnect "s1"] st) "u2" = true.
Proof.
  repeat split; try reflexivity.
  intros H. specialize (H "s1" "u1" "u2" eq_refl eq_refl). discriminate H.
Qed.

(** C10: a setup without payload, or whose payload has no [_id] (or a
    falsy one), changes nothing and emits nothing: no room joined, no
    "connected", [onlineUsers] as before, no "get online users". *)
Theorem setup_without_identity_ignored :
  forall (sid : string) (ud : option user_data) (st : state),
    match ud with
    | Some d => truthy_opt (ud_id d)
    | None => false
    end = false ->
    handle (Setup sid ud) st = (st, []).
Proof.
  intros sid ud st H. simpl. unfold on_setup.
  destruct ud as [d|]; [|reflexivity].
  destruct (ud_id d) as [uid|]; [|reflexivity].
  simpl in H. now rewrite H.
Qed.

Lemma setup_without_identity_ignored_witness :
  handle (Setup "s1" (Some (mkUserData None (Some "Eve"))))
         (state_after two_sessions initial)
  = (state_after two_sessions initial, []).
Proof.
  apply (@setup_without_identity_ignored "s1"
           (Some (mkUserData None (Some "Eve")))
           (state_after two_sessions initial)).
  reflexivity.
Defined.

End Presence.

Module Relay.
Import Server ServerFacts.

(** What the four relay handlers have in common: when the target
    identity has no connection in [onlineUsers] the handler leaves the
    state as it is and emits nothing at all (nothing to the sender
    either); when it has one, the handler emits one event, to the room
    that carries the id of the recorded connection, with the payload
    that [relay_of] builds. *)
Lemma relay_drops_or_forwards_once :
  forall (e : event) (st : state) (target ev : string) (p : payload),
    relay_of e st = Some (target, ev, p) ->
    (isOnline st target = false -> handle e st = (st, []))
    /\ (forall r, resolve st target = [r] ->
                  handle e st = (st, [Emit (ToRoom r) ev p]))
    /\ (isOnline st target = true -> exists r, resolve st target = [r]).
Proof.
  intros e st target ev p Hrel.
  assert (Hon : isOnline st target = true ->
                exists r, resolve st target = [r]).
  { unfold isOnline, resolve.
    destruct (Obj.get target (onlineUsers st)) as [s|]; simpl;
      [|discriminate].
    intros ->. now exists s. }
  destruct e; simpl in Hrel; try discriminate;
    injection Hrel as <- <- <-; (split; [|split; [|exact Hon]]);
    unfold isOnline, resolve; simpl;
    unfold on_call_user, on_call_accepted, on_signal, on_call_ended;
    match goal with
    | |- context [Obj.get ?t (onlineUsers st)] =>
        destruct (Obj.get t (onlineUsers st)) as [s|]; simpl
    end;
    try (destruct (truthy s)); simpl; intros; try congruence;
    try discriminate.
Qed.

(** C9, on the code: the relay does not add the identity of the sender
    to a call-user message. The socket "s1" is registered as "u1" and
    calls "u2" with [from] set to "u9": "call-incoming" goes out with
    "u9" as the caller. The other three handlers attach the identity the
    sending socket gave at setup ("u1" for "s1", none for "s3", which
    gave none). Nor is the event sent to one connection: it is sent to
    the room that carries the id of the target's socket, and that room
    holds "s3" as well, which entered it with "join chat". *)
Theorem call_user_forwards_claimed_identity :
  let st := RelayScenario.listening in
  socket_user_id "s1" st = Some "u1"
  /\ resolve st "u2" = ["s2"]
  /\ handle (CallUser "s1" "u2" "offer" (Some "u9") (Some "Zed")
                       (Some "video")) st
     = (st, [Emit (ToRoom "s2") "call-incoming"
                  (PCallIncoming "offer" (Some "u9") (Some "Zed")
                                 (Some "video"))])
  /\ handle (Signal "s1" "u2" "ice") st
     = (st, [Emit (ToRoom "s2") "signal" (PSignal "ice" (Some "u1"))])
  /\ handle (Signal "s3" "u2" "ice") st
     = (st, [Emit (ToRoom "s2") "signal" (PSignal "ice" None)])
  /\ map id (sockets_in "s2" st) = ["s2"; "s3"]
  /\ socket_user_id "s3" st = None.
Proof. repeat split; reflexivity. Qed.

End Relay.

Module ProgFacts.

Lemma run_bind {A B : Type} (p : prog A) (f : A -> prog B) : forall w,
  run (bind p f) w = let (a, w') := run p w in run (f a) w'.
Proof.
  induction p as [a|X e k IH]; intros w; simpl; [reflexivity|].
  destruct (perform e w) as [x w']. apply IH.
Qed.

Lemma quiet_bind {A B : Type} (p : prog A) (f : A -> prog B) :
  quiet p -> (forall a, quiet (f a)) -> quiet (bind p f).
Proof.
  induction p as [a|X e k IH]; simpl; intros Hp Hf; [apply Hf|].
  destruct Hp as [He Hk]. split; [exact He|].
  intros x. apply IH; [apply Hk|exact Hf].
Qed.

Lemma quiet_forEach {A : Type} (l : list A) (f : A -> prog unit) :
  (forall a, quiet (f a)) -> quiet (forEach l f).
Proof.
  intros Hf. induction l as [|a r IH]; simpl; [exact I|].
  apply quiet_bind; [apply Hf|]. intros _. exact IH.
Qed.

Lemma silent_bind {A B : Type} (p : prog A) (f : A -> prog B) :
  silent p -> (forall a, silent (f a)) -> silent (bind p f).
Proof.
  induction p as [a|X e k IH]; simpl; intros Hp Hf; [apply Hf|].
  destruct Hp as [He [He' Hk]]. repeat split; try assumption.
  intros x. apply IH; [apply Hk|exact Hf].
Qed.

Lemma silent_forEach {A : Type} (l : list A) (f : A -> prog unit) :
  (forall a, silent (f a)) -> silent (forEach l f).
Proof.
  intros Hf. induction l as [|a r IH]; simpl; [exact I|].
  apply silent_bind; [apply Hf|]. intros _. exact IH.
Qed.

(** Emits and reads may follow a write, and each other. *)
Lemma commit_first_bind_quiet {A R : Type} (p : prog A) (f : A -> prog R) :
  quiet p ->
  (forall a, commit_first Written (f a)) ->
  (forall a, commit_first Announced (f a)) ->
  commit_first Written (bind p f) /\ commit_first Announced (bind p f).
Proof.
  induction p as [a|X e k IH]; simpl; intros Hp HW HA.
  - split; [apply HW|apply HA].
  - destruct Hp as [He Hk]. split.
    + intros x. destruct (IH x (Hk x) HW HA) as [H1 H2].
      now destruct (is_emit_eff e).
    + split; [exact He|]. intros x. now apply IH.
Qed.

(** Reads may precede the first emit of a handler that emits first. *)
Lemma emit_first_bind_silent {A R : Type} (p : prog A) (f : A -> prog R)
      (b : bool) :
  silent p -> (forall a, emit_first b (f a)) -> emit_first b (bind p f).
Proof.
  induction p as [a|X e k IH]; simpl; intros Hp Hf; [apply Hf|].
  destruct Hp as [He [He' Hk]]. split; [intros _; exact He'|].
  intros x. rewrite He, orb_false_r. apply IH; [apply Hk|exact Hf].
Qed.

Lemma not_write_not_applied {X : Type} (e : eff X) (x : X) :
  is_write_eff e = false -> applied e x = false.
Proof. destruct e; simpl; intros H; try reflexivity; discriminate H. Qed.

(** What one effect adds to the log. *)
Lemma perform_log {X : Type} (e : eff X) (w : world) :
  exists l,
    log (snd (perform e w)) = log w ++ l
    /\ List.length l <= 1
    /\ (is_emit_eff e = true -> exists a, l = [a] /\ is_emit a = true)
    /\ (is_emit_eff e = false -> existsb is_emit l = false)
    /\ (is_write_eff e = false -> existsb is_commit l = false)
    /\ (is_write_eff e = true -> existsb is_commit l = false -> l = [])
    /\ (result_tells e = true ->
        if applied e (fst (perform e w))
        then exists a, l = [a] /\ is_commit a = true
        else l = []).
Proof.
  destruct e; simpl;
    try (exists []; rewrite app_nil_r; repeat split;
         simpl; (lia || discriminate || reflexivity)).
  - (* ChatCreate *)
    eexists [_]. repeat split; simpl; try (lia || discriminate).
    intros _. eexists. split; reflexivity.
  - (* ChatFindOneAndUpdate *)
    destruct (find filter (Chat (store w))) as [c|]; simpl.
    + eexists [_]. repeat split; simpl; try (lia || discriminate).
      intros _. eexists. split; reflexivity.
    + exists []. rewrite app_nil_r.
      repeat split; simpl; (lia || discriminate || reflexivity).
  - (* ChatUpdateOne *)
    destruct (find filter (Chat (store w))) as [c|]; simpl.
    + eexists [_]. repeat split; simpl; try (lia || discriminate).
      intros _. eexists. split; reflexivity.
    + exists []. rewrite app_nil_r.
      repeat split; simpl; (lia || discriminate || reflexivity).
  - (* ChatDeleteOne *)
    destruct (find filter (Chat (store w))) as [c|]; simpl.
    + eexists [_]. repeat split; simpl; try (lia || discriminate).
    + exists []. rewrite app_nil_r.
      repeat split; simpl; (lia || discriminate || reflexivity).
  - (* MessageCreate *)
    destruct (truthy (trim content0)); simpl.
    + eexists [_]. repeat split; simpl; try (lia || discriminate).
      intros _. eexists. split; reflexivity.
    + exists []. rewrite app_nil_r.
      repeat split; simpl; (lia || discriminate || reflexivity).
  - (* MessageDeleteMany *)
    destruct (filter _ (Message (store w))) as [|m r]; simpl.
    + exists []. rewrite app_nil_r.
      repeat split; simpl; (lia || discriminate || reflexivity).
    + eexists [_]. repeat split; simpl; try (lia || discriminate).
  - (* IoEmit *)
    eexists [_]. repeat split; simpl; try (lia || discriminate).
    intros _. eexists. split; reflexivity.
  - (* SocketLeave *)
    eexists [_]. repeat split; simpl; try (lia || discriminate);
      reflexivity.
Qed.

End ProgFacts.

Module LogFacts.
Import ProgFacts.

Lemma ordered_announced_no_commit l :
  ordered Announced l = true -> existsb is_commit l = false.
Proof.
  induction l as [|a r IH]; simpl; [reflexivity|].
  intros H. apply andb_true_iff in H. destruct H as [Ha Hr].
  apply negb_true_iff in Ha. rewrite Ha. now apply IH.
Qed.

Lemma ordered_emits_follow_commit l :
  ordered Before l = true -> emits_follow_commit l = true.
Proof.
  induction l as [|a r IH]; simpl; [reflexivity|].
  intros H. apply andb_true_iff in H. destruct H as [Ha Hr].
  destruct (is_commit a); [reflexivity|].
  rewrite Ha. now apply IH.
Qed.

Lemma ordered_no_commit_after_emit l : forall ph,
  ordered ph l = true -> no_commit_after_emit l = true.
Proof.
  induction l as [|a r IH]; intros ph; simpl; [reflexivity|].
  destruct ph; intros H.
  - apply andb_true_iff in H. destruct H as [Ha Hr].
    apply negb_true_iff in Ha. rewrite Ha. eapply IH; exact Hr.
  - destruct (is_emit a).
    + now rewrite ordered_announced_no_commit.
    + eapply IH; exact H.
  - apply andb_true_iff in H. destruct H as [Ha Hr].
    destruct (is_emit a).
    + now rewrite ordered_announced_no_commit.
    + eapply IH; exact Hr.
Qed.

Lemma emits_then_commits_no_emit l :
  emits_then_commits true l = true -> existsb is_emit l = false.
Proof.
  induction l as [|a r IH]; simpl; [reflexivity|].
  intros H. apply andb_true_iff in H. destruct H as [Ha Hr].
  apply negb_true_iff in Ha. rewrite Ha. now apply IH.
Qed.

Lemma emits_then_commits_follow l :
  emits_then_commits false l = true -> commits_follow_emits l = true.
Proof.
  induction l as [|a r IH]; simpl; [reflexivity|].
  destruct (is_commit a); simpl; intros H.
  - now rewrite emits_then_commits_no_emit.
  - now apply IH.
Qed.

Lemma emits_then_commits_weaken l :
  emits_then_commits true l = true ->
  forall b, emits_then_commits b l = true.
Proof.
  induction l as [|a r IH]; simpl; [reflexivity|].
  intros H [|]; [exact H|].
  apply andb_true_iff in H. destruct H as [_ H]. simpl.
  destruct (is_commit a); [exact H|]. now apply IH.
Qed.

Lemma single_not (f : action -> bool) l :
  List.length l <= 1 -> existsb f l = false ->
  l = [] \/ exists a, l = [a] /\ f a = false.
Proof.
  destruct l as [|a [|b r]]; simpl; intros Hlen H.
  - now left.
  - right. exists a. rewrite orb_false_r in H. now split.
  - lia.
Qed.

(** A handler that writes first leaves a log that is ordered so. *)
Lemma commit_first_sound {R : Type} (p : prog R) : forall ph w,
  commit_first ph p ->
  exists l, log (snd (run p w)) = log w ++ l /\ ordered ph l = true.
Proof.
  induction p as [r|X e k IH]; intros ph w H; simpl.
  - exists []. now rewrite app_nil_r.
  - destruct (perform_log e w)
      as (l0 & Hlog & Hlen & Hemit & Hnoemit & Hnowrite & Hquietw & Htells).
    destruct (perform e w) as [x w'] eqn:Ep. simpl in *.
    destruct ph.
    + destruct H as (He & Hw & Hk).
      destruct (IH x _ w' (Hk x)) as (l1 & Hl1 & Ho1).
      exists (l0 ++ l1). rewrite Hl1, Hlog, app_assoc. split; [reflexivity|].
      specialize (Hnoemit He).
      destruct (is_write_eff e) eqn:Ew.
      * specialize (Htells (Hw eq_refl)).
        destruct (applied e x).
        -- destruct Htells as (a & -> & Ha). simpl in *.
           rewrite orb_false_r in Hnoemit. now rewrite Hnoemit, Ha.
        -- now subst l0.
      * rewrite (not_write_not_applied e x Ew) in Ho1.
        destruct (@single_not is_commit l0 Hlen (Hnowrite eq_refl))
          as [->|(a & -> & Ha)]; [exact Ho1|].
        simpl in *. rewrite orb_false_r in Hnoemit.
        now rewrite Hnoemit, Ha.
    + destruct (IH x _ w' (H x)) as (l1 & Hl1 & Ho1).
      exists (l0 ++ l1). rewrite Hl1, Hlog, app_assoc. split; [reflexivity|].
      destruct (is_emit_eff e) eqn:Ee.
      * destruct (Hemit eq_refl) as (a & -> & Ha). simpl. now rewrite Ha.
      * destruct (@single_not is_emit l0 Hlen (Hnoemit eq_refl))
          as [->|(a & -> & Ha)]; [exact Ho1|].
        simpl. now rewrite Ha.
    + destruct H as (Hw & Hk).
      destruct (IH x _ w' (Hk x)) as (l1 & Hl1 & Ho1).
      exists (l0 ++ l1). rewrite Hl1, Hlog, app_assoc. split; [reflexivity|].
      destruct (@single_not is_commit l0 Hlen (Hnowrite Hw))
        as [->|(a & -> & Ha)]; [exact Ho1|].
      simpl. now rewrite Ha.
Qed.

(** A handler that emits first leaves a log that is ordered so. *)
Lemma emit_first_sound {R : Type} (p : prog R) : forall b w,
  emit_first b p ->
  exists l, log (snd (run p w)) = log w ++ l
            /\ emits_then_commits b l = true.
Proof.
  induction p as [r|X e k IH]; intros b w H; simpl.
  - exists []. now rewrite app_nil_r.
  - destruct (perform_log e w)
      as (l0 & Hlog & Hlen & Hemit & Hnoemit & Hnowrite & Hquietw & Htells).
    destruct (perform e w) as [x w'] eqn:Ep. simpl in *.
    destruct H as (He & Hk).
    destruct (IH x _ w' (Hk x)) as (l1 & Hl1 & Ho1).
    exists (l0 ++ l1). rewrite Hl1, Hlog, app_assoc. split; [reflexivity|].
    assert (Hfirst : b = true -> existsb is_emit l0 = false).
    { intros Hb. destruct (is_emit_eff e) eqn:Ee.
      - specialize (He Hb). discriminate.
      - now apply Hnoemit. }
    destruct l0 as [|a [|a' l0]]; simpl in *; try lia.
    + destruct (is_write_eff e).
      * rewrite orb_true_r in Ho1. now apply emits_then_commits_weaken.
      * now rewrite orb_false_r in Ho1.
    + apply andb_true_iff. split.
      * destruct b; [|reflexivity].
        specialize (Hfirst eq_refl). rewrite orb_false_r in Hfirst.
        now rewrite Hfirst.
      * destruct (is_commit a) eqn:Ea.
        -- rewrite orb_true_r.
           destruct (is_write_eff e) eqn:Ew.
           ++ now rewrite orb_true_r in Ho1.
           ++ specialize (Hnowrite eq_refl). discriminate.
        -- rewrite orb_false_r.
           destruct (is_write_eff e) eqn:Ew.
           ++ specialize (Hquietw eq_refl eq_refl). discriminate.
           ++ now rewrite orb_false_r in Ho1.
Qed.

End LogFacts.

Module Ordering.
Import ProgFacts LogFacts.

(** Walks a handler: splits the obligations of each effect, takes each
    result by cases. *)
Ltac walk :=
  repeat (simpl;
    match goal with
    | |- True => exact I
    | |- _ /\ _ => split
    | |- _ = _ => reflexivity
    | |- _ = _ -> _ =>
        let H := fresh in intro H; first [discriminate H | clear H]
    | |- forall _, _ => intro
    | |- context [modifiedCount ?r] => is_var r; destruct r as [[|?] [|?]]
    | |- context [match ?x with _ => _ end] => is_var x; destruct x
    | |- context [match ?x with _ => _ end] => destruct x
    end).

Lemma classify_commit_first c q m1 m2 m3 m4 :
  commit_first Before (classify c q m1 m2 m3 m4).
Proof. unfold classify. walk. Qed.

Lemma accessChat_commit_first q u : commit_first Before (accessChat q u).
Proof. unfold accessChat, populateChat. walk. Qed.

Lemma renameGroup_commit_first q c n :
  commit_first Before (renameGroup q c n).
Proof. unfold renameGroup, populateChat, classify. walk. Qed.

Lemma updateGroupAbout_commit_first q c a :
  commit_first Before (updateGroupAbout q c a).
Proof. unfold updateGroupAbout, populateChat, classify. walk. Qed.

Lemma updateGroupPic_commit_first q c g :
  commit_first Before (updateGroupPic q c g).
Proof. unfold updateGroupPic, populateChat, classify. walk. Qed.

Lemma transferAdmin_commit_first q c n :
  commit_first Before (transferAdmin q c n).
Proof. unfold transferAdmin, populateChat. walk. Qed.

Lemma sendMessage_commit_first q ct c :
  commit_first Before (sendMessage q ct c).
Proof. unfold sendMessage. walk. Qed.

Lemma written_bind {A R : Type} (p : prog A) (f : A -> prog R) :
  quiet p ->
  (forall a, commit_first Written (f a)) ->
  (forall a, commit_first Announced (f a)) ->
  commit_first Written (bind p f).
Proof. intros. now apply commit_first_bind_quiet. Qed.

Lemma announced_bind {A R : Type} (p : prog A) (f : A -> prog R) :
  quiet p ->
  (forall a, commit_first Written (f a)) ->
  (forall a, commit_first Announced (f a)) ->
  commit_first Announced (bind p f).
Proof. intros. now apply commit_first_bind_quiet. Qed.

Ltac loop :=
  first [ apply written_bind | apply announced_bind ];
  [ apply quiet_forEach; intros ? | intros ? | intros ? ]; walk.

Lemma createGroupChat_commit_first q n us a :
  commit_first Before (createGroupChat q n us a).
Proof. unfold createGroupChat, populateChat. walk. all: loop. Qed.

Lemma addToGroup_commit_first q c us :
  commit_first Before (addToGroup q c us).
Proof. unfold addToGroup, populateChat, classify. walk. all: loop. Qed.

Lemma removeFromGroup_commit_first q c u :
  commit_first Before (removeFromGroup q c u).
Proof. unfold removeFromGroup, populateChat. walk. all: loop. Qed.

Lemma deleteGroup_emit_first q c : emit_first false (deleteGroup q c).
Proof.
  unfold deleteGroup, classify. walk.
  apply emit_first_bind_silent.
  - apply silent_forEach. intros sock. walk.
  - intros _. walk.
Qed.

Lemma handler_commit_first r :
  is_delete r = false -> commit_first Before (handler r).
Proof.
  destruct r; simpl; intros H; try discriminate H.
  - apply accessChat_commit_first.
  - apply createGroupChat_commit_first.
  - apply renameGroup_commit_first.
  - apply updateGroupAbout_commit_first.
  - apply updateGroupPic_commit_first.
  - apply addToGroup_commit_first.
  - apply removeFromGroup_commit_first.
  - apply transferAdmin_commit_first.
  - apply sendMessage_commit_first.
Qed.

End Ordering.

Module Broadcast.
Import ProgFacts LogFacts Ordering Scenario.

(** C3, as stated, fails on delete: the admin deletes the group, and
    "group deleted" goes out while the chat is still stored; the chat
    and its messages are deleted afterwards. *)
Lemma group_deleted_emitted_before_delete :
  trace (DeleteGroup (Some ann) team_id) d0 joined
  = [ Emitted (Emit (ToRoom team_id) "group deleted"
                    (PChatRef team_id "team"));
      LeftRoom "s1" team_id;
      Committed "chats" team_id;
      Committed "messages" team_id ]
  /\ emits_follow_commit
       (trace (DeleteGroup (Some ann) team_id) d0 joined) = false
  /\ (let (_, w) := interleave [0; 0]
                      [deleteGroup (Some ann) team_id]
                      (mkWorld d0 joined []) in
      log w = [ Emitted (Emit (ToRoom team_id) "group deleted"
                              (PChatRef team_id "team")) ]
      /\ Chat (store w) = [team]).
Proof. repeat split; reflexivity. Qed.

(** C3, amended: for every request but delete, in every store, no event
    is emitted before a write of the request has applied, and no write
    applies after its first event; delete is the other way round by
    design: all its events are emitted before its writes apply. *)
Theorem broadcast_order :
  forall (r : request) (d : db) (s : Server.state),
    (if is_delete r
     then commits_follow_emits (trace r d s)
     else emits_follow_commit (trace r d s)
          && no_commit_after_emit (trace r d s)) = true.
Proof.
  intros r d s. unfold trace.
  destruct (is_delete r) eqn:Hr.
  - destruct r; try discriminate Hr. simpl handler.
    destruct (@emit_first_sound _ (deleteGroup requester chatId) false
                (mkWorld d s [])
                (deleteGroup_emit_first requester chatId))
      as (l & Hl & Ho).
    simpl in Hl. rewrite Hl. now apply emits_then_commits_follow.
  - destruct (@commit_first_sound _ (handler r) Before (mkWorld d s [])
                (handler_commit_first r Hr)) as (l & Hl & Ho).
    simpl in Hl. rewrite Hl.
    rewrite (@ordered_emits_follow_commit l Ho).
    now rewrite (@ordered_no_commit_after_emit l Before Ho).
Qed.

End Broadcast.

Module Atomicity.
Import ProgFacts Ordering Scenario.

(** A conditional update guarded by the admin filter applies only to a
    chat whose admin is the requester at the moment of the write; when
    no such chat is stored it changes nothing. *)
Lemma guarded_update_at_write_time
      (f : chat -> bool) (upd : chat -> chat) (chatId q : string)
      (w : world) :
  (forall c, f c = true -> admin_filter chatId q c = true) ->
  match fst (perform (ChatFindOneAndUpdate f upd) w) with
  | Some c' =>
      exists c, In c (Chat (store w)) /\ _id c = chatId
                /\ groupAdmin c = Some q /\ c' = upd c
  | None => snd (perform (ChatFindOneAndUpdate f upd) w) = w
  end.
Proof.
  intros Hf. simpl.
  destruct (find f (Chat (store w))) as [c|] eqn:E; simpl; [|reflexivity].
  apply find_some in E. destruct E as [Hin Hc].
  specialize (Hf c Hc). unfold admin_filter, by_id in Hf.
  apply andb_true_iff in Hf. destruct Hf as [Hf Hadm].
  apply andb_true_iff in Hf. destruct Hf as [Hid _].
  exists c. repeat split; try assumption.
  - now apply String.eqb_eq.
  - now apply opt_eqb_eq.
Qed.

Ltac check_writes :=
  repeat (simpl;
    match goal with
    | |- True => exact I
    | |- _ /\ _ => split
    | |- _ = _ => reflexivity
    | H : transfer_filter _ _ _ _ = true |- _ =>
        unfold transfer_filter in H; apply andb_true_iff in H;
        destruct H as [H _]; exact H
    | H : ?x = true |- ?x = true => exact H
    | |- forall _, _ => intro
    | |- context [match ?x with _ => _ end] => is_var x; destruct x
    | |- context [match ?x with _ => _ end] => destruct x
    end).

(** rename, update-about, update-picture and transfer-admin write only
    through such a guarded conditional update. *)
Lemma renameGroup_guarded q c n :
  writes_guarded c q (renameGroup (Some q) (Some c) n).
Proof. unfold renameGroup, populateChat, classify. check_writes. Qed.

Lemma updateGroupAbout_guarded q c a :
  writes_guarded c q (updateGroupAbout (Some q) (Some c) a).
Proof. unfold updateGroupAbout, populateChat, classify. check_writes. Qed.

Lemma updateGroupPic_guarded q c g :
  writes_guarded c q (updateGroupPic (Some q) (Some c) g).
Proof. unfold updateGroupPic, populateChat, classify. check_writes. Qed.

Lemma transferAdmin_guarded q c n :
  writes_guarded c q (transferAdmin (Some q) (Some c) n).
Proof. unfold transferAdmin, populateChat. check_writes. Qed.

(** C1, on the code: add-members reads the chat with the admin filter
    but writes with [{ _id: chatId }] alone, and remove-member reads it
    by id and writes by id. [ann], admin of the group, asks to add [dan]
    (or to remove [cal]) and to hand the group to [bea]; the transfer
    commits between the read and the write of the other request. When
    that write is made the admin is [bea], not the requester, and it
    applies all the same; every request answers with success. *)
Theorem stale_admin_add_commits :
  (let (_, w) := interleave [0; 0; 1] racing (world_of d0) in
   Chat (store w)
   = [mkChat team_id "team" true [ann; bea; cal] None (Some bea) "" ""])
  /\ (let (_, w) := interleave [0; 0; 1; 0] racing (world_of d0) in
      Chat (store w)
      = [mkChat team_id "team" true [ann; bea; cal; dan] None
                (Some bea) "" ""])
  /\ (let (ps, _) :=
        interleave [0; 0; 1; 0; 0; 0; 0; 0; 1; 1] racing (world_of d0) in
      map (fun p => option_map success (finished p)) ps
      = [Some true; Some true])
  /\ ~ writes_guarded team_id ann
         (addToGroup (Some ann) (Some team_id) (Some [Some dan]))
  /\ (let (_, w) := interleave [0; 1] racing_removal (world_of d0) in
      Chat (store w)
      = [mkChat team_id "team" true [ann; bea; cal] None (Some bea) "" ""])
  /\ (let (_, w) := interleave [0; 1; 0] racing_removal (world_of d0) in
      Chat (store w)
      = [mkChat team_id "team" true [ann; bea] None (Some bea) "" ""])
  /\ (let (ps, _) :=
        interleave [0; 1; 0; 0; 0; 0; 0; 1; 1] racing_removal (world_of d0) in
      map (fun p => option_map success (finished p)) ps
      = [Some true; Some true]).
Proof.
  repeat split; try reflexivity.
  intros H. simpl in H.
  destruct H as [_ H]. specialize (H (Some team)). simpl in H.
  destruct H as [_ H]. specialize (H [dan]). simpl in H.
  destruct H as [H _]. discriminate H.
Qed.

End Atomicity.

Module GroupCreation.
Import Scenario.

(** What create-group does check: a creator, a name, and at least
    three distinct well-formed ids once the creator is added. The ids
    are in the server's own spelling: two spellings of one id, in upper
    and in lower case, are two strings, and the code counts strings. *)
Lemma createGroupChat_needs_three q n us a w :
  ids_canonically_spelled us ->
  success (fst (run (createGroupChat q n us a) w)) = true ->
  exists creatorId ids,
    q = Some creatorId /\ us = Some ids
    /\ existsb bad_id ids = false
    /\ 3 <= List.length (dedupe (creatorId :: dedupe (strings_of ids))).
Proof.
  intros _. unfold createGroupChat.
  destruct q as [creatorId|]; [|discriminate].
  destruct n as [name|]; [|discriminate].
  destruct us as [ids|]; [|discriminate].
  destruct (negb (truthy (trim name)) || Nat.ltb (List.length ids) 2);
    [discriminate|].
  destruct (existsb bad_id ids) eqn:Hbad; [discriminate|].
  destruct (Nat.ltb _ 3) eqn:Hlen; [discriminate|].
  intros _. exists creatorId, ids.
  apply Nat.ltb_ge in Hlen. now repeat split.
Qed.

(** C8, on the code: create-group checks the format of the ids but
    never looks them up. A request that names [nobody], a well-formed
    id without a user document, is answered 201 and the stored group
    has [nobody] among its members. *)
Theorem group_created_with_unknown_member :
  mem nobody (User d0) = false
  /\ (let (res, w) :=
        run (createGroupChat (Some ann) (Some "crew")
                             (Some [Some bea; Some nobody]) None)
            (world_of d0) in
      status res = 201 /\ success res = true
      /\ Chat (store w)
         = [ team;
             mkChat "000000000000000000000007" "crew" true
                    [ann; bea; nobody] None (Some ann) "" "" ]).
Proof. repeat split; reflexivity. Qed.

End GroupCreation.

Module StoreFacts.

Lemma find_none_of {A : Type} (f : A -> bool) (l : list A) :
  (forall c, In c l -> f c = false) -> find f l = None.
Proof.
  induction l as [|c r IH]; simpl; intros H; [reflexivity|].
  rewrite (H c (or_introl eq_refl)). apply IH.
  intros c' Hc'. apply H. now right.
Qed.

Lemma find_ext {A : Type} (f g : A -> bool) (l : list A) :
  (forall c, f c = g c) -> find f l = find g l.
Proof.
  intros H. induction l as [|c r IH]; simpl; [reflexivity|].
  now rewrite H, IH.
Qed.

Lemma filter_ext_all {A : Type} (f g : A -> bool) (l : list A) :
  (forall c, f c = g c) -> filter f l = filter g l.
Proof.
  intros H. induction l as [|c r IH]; simpl; [reflexivity|].
  now rewrite H, IH.
Qed.

Lemma mem_In x l : mem x l = true <-> In x l.
Proof.
  unfold mem. rewrite existsb_exists. split.
  - intros (y & Hy & E). apply String.eqb_eq in E. now subst.
  - intros H. exists x. split; [exact H|apply String.eqb_refl].
Qed.

Lemma isValid_truthy s : isValid s = true -> truthy s = true.
Proof. destruct s; [discriminate|reflexivity]. Qed.

Lemma run_trigger_bind {X R : Type} (e : eff X) (k : X -> prog R) w :
  run (bind (trigger e) k) w
  = run (k (fst (perform e w))) (snd (perform e w)).
Proof. simpl. now destruct (perform e w). Qed.

Lemma perform_update_none f upd w :
  find f (Chat (store w)) = None ->
  perform (ChatFindOneAndUpdate f upd) w = (None, w).
Proof. intros H. simpl. now rewrite H. Qed.

Lemma perform_update_some f upd w c :
  find f (Chat (store w)) = Some c ->
  perform (ChatFindOneAndUpdate f upd) w
  = (Some (upd c),
     logged (Committed "chats" (_id c))
       (set_store (set_Chat (update_first f upd (Chat (store w)))
                            (store w)) w)).
Proof. intros H. simpl. now rewrite H. Qed.

Lemma admin_filter_none q c d :
  not_admin q c d -> find (admin_filter c q) (Chat d) = None.
Proof.
  intros H. apply find_none_of. intros ch Hin.
  unfold admin_filter, by_id.
  destruct (String.eqb (_id ch) c) eqn:Eid; [|reflexivity].
  apply String.eqb_eq in Eid.
  destruct (isGroupChat ch); [|reflexivity]. simpl.
  destruct (opt_eqb (groupAdmin ch) (Some q)) eqn:Ea; [|reflexivity].
  apply opt_eqb_eq in Ea. now destruct (H ch Hin Eid).
Qed.



Lemma find_update_first f upd l c :
  find f l = Some c -> f (upd c) = true ->
  find f (update_first f upd l) = Some (upd c).
Proof.
  induction l as [|x r IH]; simpl; [discriminate|].
  destruct (f x) eqn:E; intros H Hu.
  - injection H as ->. simpl. now rewrite Hu.
  - simpl. rewrite E. now apply IH.
Qed.

Lemma perform_quiet_store {X : Type} (e : eff X) w :
  is_write_eff e = false -> store (snd (perform e w)) = store w.
Proof. destruct e; simpl; intros H; try reflexivity; discriminate H. Qed.

Lemma run_quiet_store {R : Type} (p : prog R) : forall w,
  quiet p -> store (snd (run p w)) = store w.
Proof.
  induction p as [r|X e k IH]; intros w H; simpl; [reflexivity|].
  destruct H as [He Hk].
  pose proof (perform_quiet_store e w He) as Hs.
  destruct (perform e w) as [x w']. simpl in Hs.
  rewrite (IH x w' (Hk x)). exact Hs.
Qed.

Lemma populated_same_users d d' c :
  User d = User d' -> populated d c = populated d' c.
Proof. intros H. unfold populated. now rewrite H. Qed.

End StoreFacts.

Module Authorization.
Import StoreFacts.

Lemma rejected_ret code msg w : 400 <= code -> rejected (Ret (fail code msg)) w.
Proof. intros H. exists code, msg. now split. Qed.

Lemma classify_rejected c q m1 m2 m3 m4 w :
  rejected (classify c q m1 m2 m3 m4) w.
Proof.
  unfold rejected, classify. simpl.
  destruct (find (by_id c) (Chat (store w))) as [ch|].
  - destruct (negb (isGroupChat ch)); [do 2 eexists; split; [reflexivity|lia]|].
    destruct (negb (opt_eqb (groupAdmin ch) (Some q)));
      do 2 eexists; (split; [reflexivity|lia]).
  - do 2 eexists. split; [reflexivity|lia].
Qed.

Ltac reject := apply rejected_ret; lia.

Lemma renameGroup_rejected q c n w :
  not_admin q c (store w) -> rejected (renameGroup (Some q) (Some c) n) w.
Proof.
  intros H. unfold renameGroup. destruct n as [n|]; [|reject].
  destruct (negb (truthy c) || negb (truthy (trim n))); [reject|].
  destruct (negb (isValid c)); [reject|].
  unfold rejected.
  rewrite run_trigger_bind, (@perform_update_none _ _ _ (admin_filter_none H)).
  apply classify_rejected.
Qed.








End Authorization.

Module AdminLeaves.
Import ProgFacts StoreFacts.

Lemma two_members (a m : string) (l : list string) :
  In a l -> In m l -> m <> a -> 2 <= List.length l.
Proof.
  destruct l as [|x [|y r]]; simpl; intros Ha Hm Hne;
    [contradiction| |lia].
  destruct Ha as [<-|[]]. destruct Hm as [<-|[]]. congruence.
Qed.

Lemma sole_member (a : string) (l : list string) :
  In a l -> List.length l <= 1 -> l = [a].
Proof.
  destruct l as [|x [|y r]]; simpl; intros Ha Hl; [contradiction| |lia].
  now destruct Ha as [<-|[]].
Qed.

Lemma pull_sole a c : users c = [a] -> users (pull_user a c) = [].
Proof. intros H. simpl. rewrite H. simpl. now rewrite String.eqb_refl. Qed.

(** The removal once the checks have passed: the write, then the
    notifications. *)
Lemma removal_succeeds chatId a c sel w :
  find (by_id chatId) (Chat (store w)) = Some c ->
  let p :=
    bind (trigger (ChatFindOneAndUpdate (by_id chatId) (pull_user a)))
      (fun updateResult =>
         match updateResult with
         | None => Ret (fail 404 "Chat not found during removal update.")
         | Some raw =>
             bind (populateChat (Some raw))
               (fun updatedChat =>
                  match updatedChat with
                  | None =>
                      Ret (ok 200
                        "User removed, but failed to refresh group details."
                        (Some raw))
                  | Some uc =>
                      bind (trigger (IoEmit a "removed from group"
                                       (PChatRef chatId (chatName uc))))
                      (fun _ =>
                      bind (trigger (IoEmit chatId "user left group"
                                       (PChat uc)))
                      (fun _ =>
                      bind (trigger (FetchSockets a))
                      (fun socks =>
                      bind (forEach socks
                              (fun s =>
                                 if mem chatId (Server.rooms s)
                                 then trigger (SocketLeave (Server.id s) chatId)
                                 else Ret tt))
                      (fun _ =>
                         Ret (ok 200
                                (if sel : bool then "You have left the group."
                                 else "User removed successfully.")
                                (Some uc))))))
                  end)
         end) in
  success (fst (run p w)) = true
  /\ find (by_id chatId) (Chat (store (snd (run p w))))
     = Some (pull_user a c).
Proof.
  intros Hfind p. subst p.
  rewrite run_trigger_bind, (@perform_update_some _ _ _ _ Hfind).
  cbn [fst snd]. cbv beta iota.
  set (w1 := logged _ _).
  assert (Hw1 : find (by_id chatId) (Chat (store w1)) = Some (pull_user a c)).
  { subst w1. simpl. apply find_update_first; [exact Hfind|].
    apply find_some in Hfind. now destruct Hfind. }
  unfold populateChat. rewrite run_trigger_bind.
  cbn [perform fst snd]. cbv beta iota.
  destruct (populateOk (store w1)); [|now split].
  rewrite run_trigger_bind. cbn [perform fst snd]. cbv beta iota.
  rewrite run_trigger_bind. cbn [perform fst snd]. cbv beta iota.
  rewrite run_trigger_bind. cbn [perform fst snd]. cbv beta iota.
  rewrite run_bind.
  match goal with
  | |- context [run (forEach ?l ?f) ?w0] =>
      pose proof (@run_quiet_store _ (forEach l f) w0) as Hq;
      destruct (run (forEach l f) w0) as [u w2]
  end.
  simpl in *. split; [reflexivity|].
  rewrite Hq; [exact Hw1|].
  apply quiet_forEach. intros s.
  destruct (mem chatId (Server.rooms s)); simpl; auto.
Qed.

(** C6: in a group whose admin asks to be removed (requester = admin =
    target, a member of the group), the request is rejected with the
    message that requires a transfer of ownership whenever another member
    remains, and it succeeds exactly when the admin is the only member,
    after which the stored conversation has no member. (An admin who is
    not among the members is told so, by the membership check that comes
    first.) *)
Theorem admin_self_removal :
  forall (w : world) (chatId a : string) (c : chat),
    isValid chatId = true ->
    isValid a = true ->
    find (by_id chatId) (Chat (store w)) = Some c ->
    isGroupChat c = true ->
    groupAdmin c = Some a ->
    let res := fst (run (removeFromGroup (Some a) (Some chatId) (Some a)) w) in
    let w' := snd (run (removeFromGroup (Some a) (Some chatId) (Some a)) w) in
    (In a (users c) -> (exists m, In m (users c) /\ m <> a) ->
     res = fail 400 "Admin must transfer ownership before leaving the group."
     /\ w' = w)
    /\ (success res = true <-> users c = [a])
    /\ (users c = [a] ->
        find (by_id chatId) (Chat (store w')) = Some (pull_user a c)
        /\ users (pull_user a c) = [])
    /\ (~ In a (users c) ->
        res = fail 400 "User specified is not a member of this group."
        /\ w' = w).
Proof.
  intros w chatId a c Hc Ha Hfind Hg Hadm.
  unfold removeFromGroup.
  rewrite (isValid_truthy _ Hc), (isValid_truthy _ Ha), Hc, Ha.
  simpl negb. simpl orb. cbv iota.
  rewrite run_trigger_bind. simpl fst. simpl snd.
  rewrite Hfind, Hg, Hadm. simpl negb. cbv iota.
  replace (opt_eqb (Some a) (Some a)) with true
    by (symmetry; now apply opt_eqb_eq).
  rewrite String.eqb_refl. simpl negb. simpl andb. cbv iota.
  destruct (mem a (users c)) eqn:Hmem.
  - apply mem_In in Hmem. simpl negb. cbv iota.
    destruct (Nat.ltb 1 (List.length (users c))) eqn:Hlen.
    + apply Nat.ltb_lt in Hlen. simpl.
      assert (Hne : users c <> [a]).
      { intros E. rewrite E in Hlen. simpl in Hlen. lia. }
      split; [now split|]. split; [split; [discriminate|contradiction]|].
      split; contradiction.
    + apply Nat.ltb_ge in Hlen.
      pose proof (@sole_member a (users c) Hmem Hlen) as Hsole.
      destruct (@removal_succeeds chatId a c true w Hfind) as [Hs Hf].
      cbv zeta in Hs, Hf.
      split; [|split; [|split]].
      * intros _ (m & Hm & Hne).
        pose proof (@two_members a m (users c) Hmem Hm Hne). lia.
      * split; intros _; assumption.
      * intros _. split; [exact Hf|now apply pull_sole].
      * contradiction.
  - simpl.
    assert (Hne : users c <> [a]).
    { intros E. rewrite E in Hmem. simpl in Hmem.
      rewrite String.eqb_refl in Hmem. discriminate. }
    split; [|split; [|split]].
    + intros Hin. apply mem_In in Hin. congruence.
    + split; [discriminate|contradiction].
    + contradiction.
    + intros _. now split.
Qed.

(** The admin of the three-member group of the scenario cannot leave. *)
Example admin_of_team_cannot_leave :
  run (removeFromGroup (Some Scenario.ann) (Some Scenario.team_id)
                       (Some Scenario.ann))
      (world_of Scenario.d0)
  = (fail 400 "Admin must transfer ownership before leaving the group.",
     world_of Scenario.d0).
Proof. reflexivity. Qed.

Lemma admin_self_removal_witness :
  find (by_id Scenario.team_id)
       (Chat (store (snd (run (removeFromGroup (Some Scenario.ann)
                                 (Some Scenario.team_id) (Some Scenario.ann))
                              (world_of Scenario.d_solo)))))
  = Some (pull_user Scenario.ann Scenario.solo)
  /\ users (pull_user Scenario.ann Scenario.solo) = [].
Proof.
  exact (proj1 (proj2 (proj2 (@admin_self_removal (world_of Scenario.d_solo)
                                Scenario.team_id Scenario.ann Scenario.solo
                                eq_refl eq_refl eq_refl eq_refl eq_refl)))
               eq_refl).
Defined.

End AdminLeaves.

Module DirectChat.
Import ProgFacts StoreFacts.

Lemma direct_filter_sym a b c : direct_filter a b c = direct_filter b a c.
Proof.
  unfold direct_filter.
  destruct (negb (isGroupChat c)), (mem a (users c)), (mem b (users c));
    reflexivity.
Qed.

Lemma find_app_none {A : Type} (f : A -> bool) l x :
  find f l = None -> f x = true -> find f (l ++ [x]) = Some x.
Proof.
  induction l as [|y r IH]; simpl; intros H Hx.
  - now rewrite Hx.
  - destruct (f y); [discriminate|]. now apply IH.
Qed.

Lemma find_app_fresh chatId l x :
  ~ In chatId (map _id l) -> _id x = chatId ->
  find (by_id chatId) (l ++ [x]) = Some x.
Proof.
  intros Hfresh Hx. apply find_app_none.
  - apply find_none_of. intros c Hin. unfold by_id.
    apply String.eqb_neq. intros E. apply Hfresh. rewrite <- E.
    now apply in_map.
  - unfold by_id. rewrite Hx. apply String.eqb_refl.
Qed.

Lemma find_none_filter {A : Type} (f : A -> bool) l :
  find f l = None -> filter f l = [].
Proof.
  induction l as [|y r IH]; simpl; [reflexivity|].
  destruct (f y); [discriminate|exact IH].
Qed.

Lemma find_some_filter {A : Type} (f : A -> bool) l x :
  find f l = Some x -> 1 <= List.length (filter f l).
Proof.
  induction l as [|y r IH]; simpl; [discriminate|].
  destruct (f y); simpl; [lia|exact IH].
Qed.

Lemma new_direct_matches a b d :
  a <> b -> direct_filter a b (new_direct a b d) = true.
Proof.
  intros H. unfold direct_filter, new_direct. simpl.
  rewrite !String.eqb_refl. simpl. now rewrite orb_true_r.
Qed.

(** An existing direct conversation is returned, the world untouched. *)
Lemma accessChat_existing a b c w :
  a <> b -> isValid b = true -> mem b (User (store w)) = true ->
  populateOk (store w) = true ->
  find (direct_filter a b) (Chat (store w)) = Some c ->
  run (accessChat (Some a) (Some b)) w
  = (ok 200 "" (Some (populated (store w) c)), w).
Proof.
  intros Hne Hv Hex Hpop Hfind. unfold accessChat.
  rewrite (isValid_truthy _ Hv), Hv. cbn [negb]. cbv iota.
  assert (E : String.eqb b a = false) by (apply String.eqb_neq; congruence).
  rewrite E.
  rewrite run_trigger_bind. cbn [perform fst snd]. rewrite Hex.
  cbn [negb]. cbv iota.
  rewrite run_trigger_bind. cbn [perform fst snd]. rewrite Hfind.
  cbv iota. unfold populateChat.
  rewrite run_trigger_bind. cbn [perform fst snd]. now rewrite Hpop.
Qed.

(** Without one, a chat is inserted, under a fresh id, and returned. *)
Lemma accessChat_new a b w :
  a <> b -> isValid b = true -> mem b (User (store w)) = true ->
  populateOk (store w) = true ->
  ~ In (oid_of_N (oidCounter (store w))) (map _id (Chat (store w))) ->
  find (direct_filter a b) (Chat (store w)) = None ->
  let c0 := new_direct a b (store w) in
  let d1 := mkDb (Chat (store w) ++ [c0]) (User (store w))
                 (Message (store w)) (N.succ (oidCounter (store w)))
                 (populateOk (store w)) in
  fst (run (accessChat (Some a) (Some b)) w)
  = ok 201 "" (Some (populated (store w) c0))
  /\ store (snd (run (accessChat (Some a) (Some b)) w)) = d1.
Proof.
  intros Hne Hv Hex Hpop Hfresh Hfind c0 d1. unfold accessChat.
  rewrite (isValid_truthy _ Hv), Hv. cbn [negb]. cbv iota.
  assert (E : String.eqb b a = false) by (apply String.eqb_neq; congruence).
  rewrite E.
  rewrite run_trigger_bind. cbn [perform fst snd]. rewrite Hex.
  cbn [negb]. cbv iota.
  rewrite run_trigger_bind. cbn [perform fst snd]. rewrite Hfind.
  cbv iota.
  rewrite run_trigger_bind. cbn [perform fst snd].
  fold (new_direct a b (store w)). fold c0.
  rewrite run_trigger_bind. cbn [perform fst snd store logged set_store Chat].
  rewrite (@find_app_fresh (_id c0) (Chat (store w)) c0 Hfresh eq_refl).
  cbv iota. unfold populateChat.
  rewrite run_trigger_bind.
  cbn [perform fst snd store logged set_store populateOk].
  rewrite Hpop. cbv iota.
  rewrite run_trigger_bind. cbn [perform fst snd run logged store].
  split; [reflexivity|]. subst d1. simpl. now rewrite Hpop.
Qed.

(** Two sequential create-direct calls for a pair, in terms of the
    query the handler runs. *)
Lemma accessChat_twice :
  forall (w : world) (a b q2 u2 : string),
    a <> b ->
    isValid a = true -> isValid b = true ->
    mem a (User (store w)) = true -> mem b (User (store w)) = true ->
    populateOk (store w) = true ->
    ~ In (oid_of_N (oidCounter (store w))) (map _id (Chat (store w))) ->
    (q2, u2) = (a, b) \/ (q2, u2) = (b, a) ->
    let r1 := fst (run (accessChat (Some a) (Some b)) w) in
    let w1 := snd (run (accessChat (Some a) (Some b)) w) in
    let r2 := fst (run (accessChat (Some q2) (Some u2)) w1) in
    let w2 := snd (run (accessChat (Some q2) (Some u2)) w1) in
    success r1 = true
    /\ status r2 = 200 /\ success r2 = true
    /\ (exists c, In c (Chat (store w1)) /\ direct_filter a b c = true
                  /\ res_chat r1 = Some (populated (store w) c)
                  /\ res_chat r2 = Some (populated (store w) c))
    /\ w2 = w1
    /\ List.length (direct_chats a b (store w2))
       = Nat.max 1 (List.length (direct_chats a b (store w)))
    /\ (find (direct_filter a b) (Chat (store w)) <> None -> w2 = w)
    /\ (find (direct_filter a b) (Chat (store w)) = None ->
        Chat (store w2)
        = Chat (store w) ++ [new_direct a b (store w)]).
Proof.
  intros w a b q2 u2 Hne Hva Hvb Hma Hmb Hpop Hfresh Hpair r1 w1 r2 w2.
  assert (Hsecond : forall w' c,
             User (store w') = User (store w) ->
             populateOk (store w') = true ->
             find (direct_filter a b) (Chat (store w')) = Some c ->
             run (accessChat (Some q2) (Some u2)) w'
             = (ok 200 "" (Some (populated (store w) c)), w')).
  { intros w' c HU HP HF.
    rewrite (@populated_same_users (store w) (store w') c (eq_sym HU)).
    destruct Hpair as [E|E]; injection E as -> ->.
    - apply accessChat_existing; try assumption. now rewrite HU.
    - apply accessChat_existing; try assumption.
      + congruence.
      + now rewrite HU.
      + rewrite <- HF. apply find_ext. intros x. apply direct_filter_sym. }
  destruct (find (direct_filter a b) (Chat (store w))) as [c|] eqn:Hfind.
  - (* the pair already has a direct conversation *)
    pose proof (@accessChat_existing a b c w Hne Hvb Hmb Hpop Hfind) as H1.
    assert (Ew1 : w1 = w) by (subst w1; now rewrite H1).
    assert (Er1 : r1 = ok 200 "" (Some (populated (store w) c)))
      by (subst r1; now rewrite H1).
    pose proof (Hsecond w c eq_refl Hpop Hfind) as H2.
    subst w2 r2. rewrite Ew1, H2, Er1. cbn [fst snd].
    split; [reflexivity|]. split; [reflexivity|]. split; [reflexivity|].
    split; [|split; [reflexivity|split; [|split; [reflexivity|discriminate]]]].
    + exists c. apply find_some in Hfind. destruct Hfind. now repeat split.
    + unfold direct_chats.
      pose proof (find_some_filter _ _ Hfind). lia.
  - (* it has none: the first call inserts one *)
    destruct (@accessChat_new a b w Hne Hvb Hmb Hpop Hfresh Hfind)
      as [Er1 Ew1].
    fold r1 in Er1. fold w1 in Ew1.
    set (c0 := new_direct a b (store w)) in *.
    assert (Hfind1 : find (direct_filter a b) (Chat (store w1)) = Some c0).
    { rewrite Ew1. cbn [Chat].
      apply find_app_none; [exact Hfind|now apply new_direct_matches]. }
    assert (HU : User (store w1) = User (store w)) by now rewrite Ew1.
    assert (HP : populateOk (store w1) = true) by now rewrite Ew1.
    pose proof (Hsecond w1 c0 HU HP Hfind1) as H2.
    subst w2 r2. rewrite H2, Er1. cbn [fst snd].
    split; [reflexivity|]. split; [reflexivity|]. split; [reflexivity|].
    split; [|split; [reflexivity|split; [|split]]].
    + exists c0. repeat split.
      * rewrite Ew1. cbn [Chat]. apply in_or_app. right. now left.
      * now apply new_direct_matches.
    + unfold direct_chats. rewrite Ew1. cbn [Chat].
      rewrite filter_app, (find_none_filter _ _ Hfind).
      pose proof (new_direct_matches (store w) Hne) as Hm. fold c0 in Hm.
      cbn [filter app]. now rewrite Hm.
    + intros H. now destruct H.
    + intros _. now rewrite Ew1.
Qed.


Lemma strings_eqb_eq l1 : forall l2, strings_eqb l1 l2 = true <-> l1 = l2.
Proof.
  induction l1 as [|x r IH]; intros [|y r2]; simpl;
    try (split; [discriminate|discriminate]); [split; reflexivity|].
  rewrite andb_true_iff, String.eqb_eq, IH. split.
  - intros [-> ->]. reflexivity.
  - intros E. injection E as -> ->. now split.
Qed.

(** The query of the handler finds what the specification calls a
    direct conversation of the pair, and nothing else. *)
Lemma direct_filter_between a b c :
  a <> b -> direct_filter a b c = is_direct_between a b c.
Proof.
  intros Hne. unfold direct_filter, is_direct_between, mem.
  destruct (isGroupChat c); [reflexivity|]. cbn [negb andb].
  destruct (users c) as [|x [|y [|z r]]]; simpl.
  - reflexivity.
  - now rewrite !andb_false_r.
  - rewrite (String.eqb_sym x a), (String.eqb_sym y b),
      (String.eqb_sym x b), (String.eqb_sym y a).
    destruct (String.eqb a x) eqn:E1, (String.eqb a y) eqn:E2,
             (String.eqb b x) eqn:E3, (String.eqb b y) eqn:E4;
      simpl; try reflexivity; exfalso; apply Hne;
      repeat match goal with
             | H : String.eqb _ _ = true |- _ => apply String.eqb_eq in H
             end;
      congruence.
  - now rewrite !andb_false_r.
Qed.

Lemma is_direct_between_spec a b c :
  is_direct_between a b c = true <-> direct_between a b c.
Proof.
  unfold is_direct_between, direct_between.
  rewrite andb_true_iff, orb_true_iff, negb_true_iff, !strings_eqb_eq.
  reflexivity.
Qed.

Lemma count_direct_between_filter a b d :
  a <> b ->
  count_direct_between a b d = List.length (direct_chats a b d).
Proof.
  intros Hne. unfold count_direct_between, direct_chats.
  f_equal. apply filter_ext. intros c.
  symmetry. now apply direct_filter_between.
Qed.

(** C7: for distinct identities [a] and [b] with user documents, in a
    store whose next ObjectId is unused, create-direct asked by [a] for
    [b], then asked again for the same pair (by [a] for [b] or by [b] for
    [a]): the first call succeeds; the second answers 200 with the very
    conversation the first one returned and changes nothing. That
    conversation is stored, is not a group, and its members are exactly
    [a] and [b], both of them in the answer. The pair has as many direct
    conversations (chats that are no group and whose members are exactly
    the two) as before, or one if it had none: with one or more before,
    the two calls change nothing at all; with none, the two calls
    together insert one chat, the conversation of the pair. *)
Theorem create_direct_idempotent :
  forall (w : world) (a b q2 u2 : string),
    a <> b ->
    isValid a = true -> isValid b = true ->
    mem a (User (store w)) = true -> mem b (User (store w)) = true ->
    populateOk (store w) = true ->
    ~ In (oid_of_N (oidCounter (store w))) (map _id (Chat (store w))) ->
    (q2, u2) = (a, b) \/ (q2, u2) = (b, a) ->
    let r1 := fst (run (accessChat (Some a) (Some b)) w) in
    let w1 := snd (run (accessChat (Some a) (Some b)) w) in
    let r2 := fst (run (accessChat (Some q2) (Some u2)) w1) in
    let w2 := snd (run (accessChat (Some q2) (Some u2)) w1) in
    success r1 = true
    /\ status r2 = 200 /\ success r2 = true
    /\ (exists c rc,
          In c (Chat (store w1))
          /\ isGroupChat c = false
          /\ (users c = [a; b] \/ users c = [b; a])
          /\ res_chat r1 = Some rc /\ res_chat r2 = Some rc
          /\ _id rc = _id c /\ isGroupChat rc = false
          /\ users rc = users c)
    /\ w2 = w1
    /\ count_direct_between a b (store w2)
       = Nat.max 1 (count_direct_between a b (store w))
    /\ (0 < count_direct_between a b (store w) -> w2 = w)
    /\ (count_direct_between a b (store w) = 0 ->
        exists c0,
          Chat (store w2) = Chat (store w) ++ [c0]
          /\ isGroupChat c0 = false /\ users c0 = [a; b]).
Proof.
  intros w a b q2 u2 Hne Hva Hvb Hma Hmb Hpop Hfresh Hpair r1 w1 r2 w2.
  destruct (@accessChat_twice w a b q2 u2 Hne Hva Hvb Hma Hmb Hpop Hfresh
              Hpair)
    as (H1 & H2 & H3 & (c & Hin & Hf & Hr1 & Hr2) & H5 & H6 & H7 & H8).
  fold r1 in H1, Hr1. fold w1 in Hin, H5. fold r2 in H2, H3, Hr2.
  fold w2 in H5, H6, H7, H8.
  rewrite (direct_filter_between c Hne) in Hf.
  apply is_direct_between_spec in Hf. destruct Hf as [Hg Hus].
  rewrite <- !(count_direct_between_filter _ Hne) in H6.
  split; [exact H1|]. split; [exact H2|]. split; [exact H3|].
  split; [|split; [exact H5|split; [exact H6|split]]].
  - exists c, (populated (store w) c).
    repeat split; try assumption.
    unfold populated. cbn [users].
    destruct Hus as [-> | ->]; simpl; now rewrite Hma, Hmb.
  - intros Hpos. apply H7. intros Hnone.
    rewrite (count_direct_between_filter _ Hne) in Hpos.
    unfold direct_chats in Hpos.
    rewrite (find_none_filter _ _ Hnone) in Hpos. simpl in Hpos. lia.
  - intros Hzero.
    rewrite (count_direct_between_filter _ Hne) in Hzero.
    unfold direct_chats in Hzero.
    destruct (find (direct_filter a b) (Chat (store w))) as [c1|] eqn:Hfind.
    + pose proof (find_some_filter _ _ Hfind). lia.
    + exists (new_direct a b (store w)).
      split; [exact (H8 eq_refl)|split; reflexivity].
Qed.

Lemma create_direct_idempotent_witness :
  let w := world_of Scenario.d0 in
  let a := Scenario.ann in
  let b := Scenario.bea in
  snd (run (accessChat (Some b) (Some a))
           (snd (run (accessChat (Some a) (Some b)) w)))
  = snd (run (accessChat (Some a) (Some b)) w).
Proof.
  intros w a b.
  refine (proj1 (proj2 (proj2 (proj2 (proj2
    (@create_direct_idempotent w a b b a _ eq_refl eq_refl eq_refl eq_refl
       eq_refl _ (or_intror eq_refl))))))).
  - discriminate.
  - simpl. intros [H|[]]. discriminate H.
Defined.

End DirectChat.

Module PresenceCleanup.
Import Server ServerFacts.




Lemma getUserIdFromSocketId_none o c :
  (forall u, Obj.get u o <> Some c) -> getUserIdFromSocketId o c = None.
Proof.
  intros H. unfold getUserIdFromSocketId.
  apply StoreFacts.find_none_of. intros u _.
  destruct (opt_eqb (Obj.get u o) (Some c)) eqn:E; [|reflexivity].
  apply opt_eqb_eq in E. now destruct (H u).
Qed.







(** X2: when a socket that is recorded under no identity disconnects
    (setup was never called, or its entry was replaced), nothing is
    broadcast and the registry is as it was; only the socket is gone. *)
Theorem disconnect_untracked_silent :
  forall (st : state) (c : string),
    unrecorded c st ->
    handle (Disconnect c) st
    = (mkState (onlineUsers st)
               (filter (fun s => negb (String.eqb (id s) c)) (sockets st)),
       []).
Proof.
  intros st c H. simpl. unfold on_disconnect.
  now rewrite (getUserIdFromSocketId_none _ H).
Qed.

Lemma disconnect_untracked_silent_witness :
  snd (handle (Disconnect "s1") (state_after two_sessions initial)) = [].
Proof.
  rewrite (@disconnect_untracked_silent
             (state_after two_sessions initial) "s1").
  - reflexivity.
  - intros u. simpl.
    destruct (String.eqb u "u1"); discriminate.
Defined.

End PresenceCleanup.

Module Registry.
Import Server ServerFacts PresenceCleanup.



End Registry.

Module Refusals.
Import ProgFacts StoreFacts Authorization.










End Refusals.

Module Reads.
Import ProgFacts StoreFacts.



(** The cast of an id that passes the pattern of the route is a
    well-formed id in lower case, and an id in lower case is its own
    cast. *)
Lemma lower_hex_is_hex c : is_hex_any c = true -> is_hex (lower_hex c) = true.
Proof.
  destruct c as [[] [] [] [] [] [] [] []]; vm_compute; auto.
Qed.

Lemma lower_hex_fixed c : is_hex c = true -> lower_hex c = c.
Proof.
  destruct c as [[] [] [] [] [] [] [] []]; vm_compute; auto;
    discriminate.
Qed.

Lemma canonical_length s : String.length (canonical s) = String.length s.
Proof.
  induction s as [|c r IH]; simpl; [reflexivity|now rewrite IH].
Qed.

Lemma canonical_all_hex s : all_hex_any s = true -> all_hex (canonical s) = true.
Proof.
  induction s as [|c r IH]; simpl; [reflexivity|].
  intros H. apply andb_true_iff in H. destruct H as [Hc Hr].
  now rewrite (lower_hex_is_hex _ Hc), (IH Hr).
Qed.

Lemma canonical_isValid s : matches_oid s = true -> isValid (canonical s) = true.
Proof.
  unfold matches_oid, isValid. intros H.
  apply andb_true_iff in H. destruct H as [Hl Hh].
  now rewrite canonical_length, Hl, (canonical_all_hex _ Hh).
Qed.

Lemma canonical_fixed s : all_hex s = true -> canonical s = s.
Proof.
  induction s as [|c r IH]; simpl; [reflexivity|].
  intros H. apply andb_true_iff in H. destruct H as [Hc Hr].
  now rewrite (lower_hex_fixed _ Hc), (IH Hr).
Qed.

(** X7: fetch-messages returns messages only to a member of the chat,
    and then exactly the stored messages of that chat: every message
    returned belongs to the chat the id names (in whatever case its hex
    digits are written) and that chat has the requester among its
    members; the answer is 200 exactly when the id has the form of an
    ObjectId and such a chat is stored; and with status 200 none of the
    chat's messages is missing. *)
Theorem fetchMessages_members_only :
  forall (d : db) (q c : string),
    let oid := canonical c in
    (forall m, In m (mr_messages (fetchMessages q c d)) ->
       m_chat m = oid /\ In m (Message d) /\ isValid oid = true
       /\ exists ch, In ch (Chat d) /\ _id ch = oid /\ In q (users ch))
    /\ (mr_status (fetchMessages q c d) = 200 <->
        matches_oid c = true
        /\ exists ch, In ch (Chat d) /\ _id ch = oid /\ In q (users ch))
    /\ (mr_status (fetchMessages q c d) = 200 ->
        forall m, In m (Message d) -> m_chat m = oid ->
                  In m (mr_messages (fetchMessages q c d)))
    /\ (isValid c = true -> oid = c).
Proof.
  intros d q c oid. unfold fetchMessages. fold oid.
  assert (Hfix : isValid c = true -> oid = c).
  { unfold isValid. intros H. apply andb_true_iff in H.
    apply canonical_fixed, H. }
  destruct (matches_oid c) eqn:Hm; simpl.
  - pose proof (canonical_isValid _ Hm) as Hv. fold oid in Hv.
    destruct (find (member_filter oid q) (Chat d)) as [ch|] eqn:E; simpl.
    + apply find_some in E. destruct E as [Hin Hf].
      unfold member_filter, by_id in Hf. apply andb_true_iff in Hf.
      destruct Hf as [Hid Hmem].
      apply String.eqb_eq in Hid. apply mem_In in Hmem.
      split; [|split; [|split]]; [| | |exact Hfix].
      * intros m Hin'. apply filter_In in Hin'. destruct Hin' as [Hin' He].
        apply String.eqb_eq in He. repeat split; try assumption.
        now exists ch.
      * split; [intros _|reflexivity]. split; [reflexivity|now exists ch].
      * intros _ m Hin' He. apply filter_In. split; [exact Hin'|].
        now apply String.eqb_eq.
    + split; [|split; [|split]]; [| | |exact Hfix];
        try (intros; contradiction || discriminate).
      split; [discriminate|]. intros [_ (ch & Hin & Hid & Hq)].
      pose proof (find_none _ _ E ch Hin) as Hn.
      unfold member_filter, by_id in Hn.
      rewrite Hid, String.eqb_refl in Hn. simpl in Hn.
      apply mem_In in Hq. congruence.
  - split; [|split; [|split]]; [| | |exact Hfix];
      try (intros; contradiction || discriminate).
    split; [discriminate|]. intros [H _]. discriminate H.
Qed.

Lemma fetchMessages_members_only_witness :
  mr_status (fetchMessages Scenario.bea "0123456789ABCDEF0123aaaa"
                           MoreScenarios.d1) = 200.
Proof.
  apply (proj2 (proj1 (proj2 (@fetchMessages_members_only MoreScenarios.d1
                                Scenario.bea "0123456789ABCDEF0123aaaa")))).
  split; [reflexivity|].
  exists MoreScenarios.pair. simpl. split; [now right; left|].
  split; [reflexivity|now right; left].
Defined.

End Reads.

Module Messaging.
Import ProgFacts StoreFacts Authorization.






End Messaging.

Module Frame.
Import ProgFacts StoreFacts Ordering.

Lemma Forall2_refl_of {A : Type} (rel : A -> A -> Prop) (l : list A) :
  (forall a, rel a a) -> Forall2 rel l l.
Proof. intros H. induction l; constructor; auto. Qed.

Lemma Forall2_trans_of {A : Type} (rel : A -> A -> Prop) :
  (forall a b c, rel a b -> rel b c -> rel a c) ->
  forall l1 l2 l3, Forall2 rel l1 l2 -> Forall2 rel l2 l3 -> Forall2 rel l1 l3.
Proof.
  intros Ht l1 l2 l3 H12. revert l3.
  induction H12; intros l3 H23; inversion H23; subst; constructor; eauto.
Qed.

Lemma update_first_within (rel : chat -> chat -> Prop) f upd l :
  (forall c, rel c c) -> (forall c, rel c (upd c)) ->
  Forall2 rel l (update_first f upd l).
Proof.
  intros Hr Hu. induction l as [|c r IH]; simpl; [constructor|].
  destruct (f c); constructor; auto. now apply Forall2_refl_of.
Qed.

Lemma updates_within_bind {A B : Type} rel (p : prog A) (f : A -> prog B) :
  updates_within rel p -> (forall a, updates_within rel (f a)) ->
  updates_within rel (bind p f).
Proof.
  induction p as [a|X e k IH]; simpl; intros Hp Hf; [apply Hf|].
  destruct Hp as [He Hk]. split; [exact He|].
  intros x. apply IH; [apply Hk|exact Hf].
Qed.

Lemma updates_within_forEach {A : Type} rel (l : list A) (f : A -> prog unit) :
  (forall a, updates_within rel (f a)) -> updates_within rel (forEach l f).
Proof.
  intros Hf. induction l as [|a r IH]; simpl; [exact I|].
  apply updates_within_bind; [apply Hf|]. intros _. exact IH.
Qed.

(** A handler whose updates stay within a preorder leaves every stored
    chat within it, chat by chat, and the users as they were. *)
Lemma updates_within_run {R : Type} (rel : chat -> chat -> Prop)
      (p : prog R) :
  (forall c, rel c c) ->
  (forall a b c, rel a b -> rel b c -> rel a c) ->
  forall w, updates_within rel p ->
    Forall2 rel (Chat (store w)) (Chat (store (snd (run p w))))
    /\ User (store (snd (run p w))) = User (store w).
Proof.
  intros Hr Ht. induction p as [r|X e k IH]; intros w H; simpl.
  - split; [now apply Forall2_refl_of|reflexivity].
  - destruct H as [He Hk].
    assert (Hstep : Forall2 rel (Chat (store w))
                      (Chat (store (snd (perform e w))))
                    /\ User (store (snd (perform e w))) = User (store w)).
    { destruct e; simpl in *; try discriminate He;
        try (split; [now apply Forall2_refl_of|reflexivity]).
      - destruct (find filter (Chat (store w))); simpl;
          (split; [|reflexivity]);
          [now apply update_first_within|now apply Forall2_refl_of].
      - destruct (find filter (Chat (store w))); simpl;
          (split; [|reflexivity]);
          [now apply update_first_within|now apply Forall2_refl_of].
      - destruct (truthy (trim content0)); simpl;
          (split; [now apply Forall2_refl_of|reflexivity]). }
    destruct (perform e w) as [x w1]. simpl in Hstep.
    destruct Hstep as [H1 HU1].
    destruct (IH x w1 (Hk x)) as [H2 HU2].
    split; [|congruence].
    eapply Forall2_trans_of; eauto.
Qed.

Lemma addToSet_grows ids : forall l,
  incl l (fold_left (fun acc x => if mem x acc then acc else acc ++ [x])
                    ids l).
Proof.
  induction ids as [|x r IH]; intros l; simpl; [apply incl_refl|].
  destruct (mem x l); [apply IH|].
  eapply incl_tran; [|apply IH]. now apply incl_appl, incl_refl.
Qed.

Ltac within :=
  repeat (simpl;
    match goal with
    | |- True => exact I
    | |- _ /\ _ => split
    | |- _ = _ => reflexivity
    | |- incl ?l ?l => apply incl_refl
    | |- incl (filter _ ?l) ?l => apply incl_filter
    | |- incl ?l (fold_left _ _ ?l) => apply addToSet_grows
    | |- same_membership _ _ => unfold same_membership
    | |- members_kept _ _ => unfold members_kept
    | |- members_not_added _ _ => unfold members_not_added
    | |- same_but_admin _ _ => unfold same_but_admin
    | |- same_but_latest _ _ => unfold same_but_latest
    | |- updates_within _ (bind (forEach _ _) _) =>
        apply updates_within_bind;
        [apply updates_within_forEach; intro|intro]
    | |- forall _, _ => intro
    | |- context [modifiedCount ?r] => is_var r; destruct r as [[|?] [|?]]
    | |- context [match ?x with _ => _ end] => is_var x; destruct x
    | |- context [match ?x with _ => _ end] => destruct x
    end).

Lemma renameGroup_within q c n :
  updates_within same_membership (renameGroup q c n).
Proof. unfold renameGroup, populateChat, classify. within. Qed.

Lemma updateGroupAbout_within q c a :
  updates_within same_membership (updateGroupAbout q c a).
Proof. unfold updateGroupAbout, populateChat, classify. within. Qed.

Lemma updateGroupPic_within q c g :
  updates_within same_membership (updateGroupPic q c g).
Proof. unfold updateGroupPic, populateChat, classify. within. Qed.

Lemma addToGroup_within q c us :
  updates_within members_kept (addToGroup q c us).
Proof. unfold addToGroup, populateChat, classify. within. Qed.

Lemma removeFromGroup_within q c u :
  updates_within members_not_added (removeFromGroup q c u).
Proof. unfold removeFromGroup, populateChat. within. Qed.

Lemma transferAdmin_within q c n :
  updates_within same_but_admin (transferAdmin q c n).
Proof. unfold transferAdmin, populateChat. within. Qed.

Lemma sendMessage_within q ct c :
  updates_within same_but_latest (sendMessage q ct c).
Proof. unfold sendMessage. within. Qed.

Ltac preorder :=
  unfold same_membership, members_kept, members_not_added, same_but_admin,
    same_but_latest;
  intros;
  repeat match goal with
         | H : _ /\ _ |- _ => destruct H
         end;
  repeat split; try congruence;
  try apply incl_refl; eauto using incl_tran.

(** X10: what a group request can do to the stored chats. No request
    but create and delete inserts or removes a chat or changes the id or
    the kind of one, and none changes the users. Rename, update-about and
    update-picture leave the members, the admin and the latest message of
    every chat as they were; add-members loses no member and
    remove-member gains none, and neither changes an admin or a name;
    transfer-admin changes nothing but an admin; send-message changes
    nothing but a latest-message pointer. This holds for every input,
    accepted or refused. *)
Theorem chats_frame :
  forall (r : request) (w : world),
    keeps_chats r = true ->
    Forall2 (allowed_change r)
            (Chat (store w)) (Chat (store (snd (run (handler r) w))))
    /\ User (store (snd (run (handler r) w))) = User (store w).
Proof.
  intros r w Hr.
  destruct r; try discriminate Hr; cbn [handler allowed_change];
    apply updates_within_run.
  all: try solve [preorder].
  - apply renameGroup_within.
  - apply updateGroupAbout_within.
  - apply updateGroupPic_within.
  - apply addToGroup_within.
  - apply removeFromGroup_within.
  - apply transferAdmin_within.
  - apply sendMessage_within.
Qed.

Lemma chats_frame_witness :
  Forall2 same_but_admin
    (Chat Scenario.d0)
    (Chat (store (snd (run (transferAdmin (Some Scenario.ann)
                              (Some Scenario.team_id) (Some Scenario.bea))
                           (world_of Scenario.d0))))).
Proof.
  exact (proj1 (@chats_frame
                  (TransferAdmin (Some Scenario.ann) (Some Scenario.team_id)
                                 (Some Scenario.bea))
                  (world_of Scenario.d0) eq_refl)).
Defined.

End Frame.

Module Deletion.
Import ProgFacts StoreFacts.













End Deletion.

Module Handover.
Import ProgFacts StoreFacts Authorization.

Lemma update_first_split f upd l ch :
  find f l = Some ch ->
  exists l1 l2, l = l1 ++ ch :: l2
                /\ update_first f upd l = l1 ++ upd ch :: l2.
Proof.
  induction l as [|x r IH]; simpl; [discriminate|].
  destruct (f x) eqn:E; intros H.
  - injection H as ->. now exists [], r.
  - destruct (IH H) as (l1 & l2 & -> & Hu).
    exists (x :: l1), l2. simpl. now rewrite Hu.
Qed.

Lemma unique_id_elsewhere l1 l2 (ch x : chat) :
  NoDup (map _id (l1 ++ ch :: l2)) -> In x (l1 ++ l2) -> _id x <> _id ch.
Proof.
  rewrite map_app. simpl. intros H Hx E.
  apply NoDup_remove_2 in H. apply H. rewrite <- map_app, <- E.
  now apply in_map.
Qed.

Lemma find_unique_slot (f : chat -> bool) l1 l2 (y : chat) c :
  (forall x, In x (l1 ++ l2) -> _id x <> c) ->
  f y = true ->
  (forall x, f x = true -> _id x = c) ->
  find f (l1 ++ y :: l2) = Some y.
Proof.
  intros Hother Hy Hf. induction l1 as [|x r IH]; simpl.
  - now rewrite Hy.
  - destruct (f x) eqn:E.
    + exfalso. apply (Hother x); [now left|now apply Hf].
    + apply IH. intros z Hz. apply Hother. now right.
Qed.

(** The transfer once the checks have passed. *)
Lemma transfer_store w q c n ch :
  find (transfer_filter c q n) (Chat (store w)) = Some ch ->
  let p :=
    bind (trigger (ChatFindOneAndUpdate (transfer_filter c q n)
                     (set_groupAdmin n)))
      (fun updatedChatRaw =>
         match updatedChatRaw with
         | None =>
             bind (trigger (ChatFindById c))
               (fun found =>
                  match found with
                  | None => Ret (fail 404 "Chat not found")
                  | Some c0 =>
                      if negb (isGroupChat c0)
                      then Ret (fail 400 "Not a group chat")
                      else if negb (opt_eqb (groupAdmin c0) (Some q))
                      then Ret (fail 403
                             "Only the current admin can transfer the role.")
                      else if negb (mem n (users c0))
                      then Ret (fail 400
                             "The selected user is not a member of this group.")
                      else Ret (fail 500 "Failed to transfer admin role.")
                  end)
         | Some raw =>
             bind (populateChat (Some raw))
               (fun updatedChat =>
                  match updatedChat with
                  | None =>
                      Ret (ok 200
                        "Admin role transferred, but failed to refresh details."
                        (Some raw))
                  | Some uc =>
                      bind (trigger (IoEmit c "group updated" (PChat uc)))
                        (fun _ =>
                           Ret (ok 200 "Admin role transferred successfully."
                                   (Some uc)))
                  end)
         end) in
  success (fst (run p w)) = true
  /\ status (fst (run p w)) = 200
  /\ Chat (store (snd (run p w)))
     = update_first (transfer_filter c q n) (set_groupAdmin n)
                    (Chat (store w)).
Proof.
  intros Hfind p. subst p.
  rewrite run_trigger_bind, (@perform_update_some _ _ _ _ Hfind).
  cbn [fst snd]. cbv beta iota.
  unfold populateChat. rewrite run_trigger_bind.
  cbn [perform fst snd]. cbv beta iota.
  destruct (populateOk _); [|now repeat split].
  rewrite run_trigger_bind. cbn [perform fst snd run]. now repeat split.
Qed.

(** X12: a transfer by the admin to another member hands the group
    over: the request answers 200, the stored chat has the new admin, who
    is one of its members, and nothing else in it changed; from then on
    the former admin is refused what only the admin may do (here: a
    rename), and the admin filter finds the chat for the new admin.
    Chat ids are unique. *)
Theorem transfer_hands_over :
  forall (w : world) (q c n : string) (ch : chat),
    isValid c = true -> isValid n = true -> q <> n ->
    NoDup (map _id (Chat (store w))) ->
    find (transfer_filter c q n) (Chat (store w)) = Some ch ->
    let res := fst (run (transferAdmin (Some q) (Some c) (Some n)) w) in
    let w' := snd (run (transferAdmin (Some q) (Some c) (Some n)) w) in
    status res = 200 /\ success res = true
    /\ find (by_id c) (Chat (store w')) = Some (set_groupAdmin n ch)
    /\ In n (users ch)
    /\ find (admin_filter c n) (Chat (store w')) = Some (set_groupAdmin n ch)
    /\ not_admin q c (store w')
    /\ forall name,
         exists res2,
           run (renameGroup (Some q) (Some c) name) w' = (res2, w')
           /\ success res2 = false.
Proof.
  intros w q c n ch Hc Hn Hne Hnd Hfind res w'.
  assert (Hrun : success res = true /\ status res = 200
                 /\ Chat (store w')
                    = update_first (transfer_filter c q n) (set_groupAdmin n)
                                   (Chat (store w))).
  { subst res w'. unfold transferAdmin.
    rewrite (isValid_truthy _ Hc), (isValid_truthy _ Hn), Hc, Hn.
    cbn [negb orb]. cbv iota.
    assert (E : String.eqb q n = false) by now apply String.eqb_neq.
    rewrite E.
    exact (@transfer_store w q c n ch Hfind). }
  destruct Hrun as (Hs & Hst & HC).
  destruct (update_first_split _ (set_groupAdmin n) _ Hfind)
    as (l1 & l2 & Hl & Hu).
  rewrite Hu in HC.
  pose proof (find_some _ _ Hfind) as [Hin Hf].
  unfold transfer_filter, admin_filter, by_id in Hf.
  apply andb_true_iff in Hf. destruct Hf as [Hf Hmem].
  apply andb_true_iff in Hf. destruct Hf as [Hf Hadm].
  apply andb_true_iff in Hf. destruct Hf as [Hid Hgrp].
  apply String.eqb_eq in Hid. apply mem_In in Hmem.
  rewrite Hl in Hnd.
  assert (Hother : forall x, In x (l1 ++ l2) -> _id x <> c).
  { intros x Hx. rewrite <- Hid.
    now apply (@unique_id_elsewhere l1 l2 ch x Hnd). }
  assert (Hfind' : forall f,
             f (set_groupAdmin n ch) = true ->
             (forall x, f x = true -> _id x = c) ->
             find f (l1 ++ set_groupAdmin n ch :: l2)
             = Some (set_groupAdmin n ch)).
  { intros f Hfn Hfc. now apply (@find_unique_slot f l1 l2 _ c). }
  assert (Hna : not_admin q c (store w')).
  { intros x Hx Hxc Hxa. rewrite HC in Hx. apply in_app_or in Hx.
    destruct Hx as [Hx|[Hx|Hx]].
    - apply (Hother x); [apply in_or_app; now left|exact Hxc].
    - subst x. simpl in Hxa. congruence.
    - apply (Hother x); [apply in_or_app; now right|exact Hxc]. }
  split; [exact Hst|]. split; [exact Hs|]. split; [|split; [|split; [|split]]].
  - rewrite HC. apply Hfind'.
    + unfold by_id. simpl. rewrite Hid. apply String.eqb_refl.
    + intros x Hx. now apply String.eqb_eq.
  - exact Hmem.
  - rewrite HC. apply Hfind'.
    + unfold admin_filter, by_id. simpl.
      rewrite Hid, String.eqb_refl, Hgrp, String.eqb_refl. reflexivity.
    + intros x Hx. unfold admin_filter, by_id in Hx.
      apply andb_true_iff in Hx. destruct Hx as [Hx _].
      apply andb_true_iff in Hx. destruct Hx as [Hx _].
      now apply String.eqb_eq.
  - exact Hna.
  - intros name.
    destruct (@renameGroup_rejected q c name w' Hna)
      as (code & msg & Hr & _).
    exists (fail code msg). now split.
Qed.

Lemma transfer_hands_over_witness :
  find (by_id Scenario.team_id)
       (Chat (store (snd (run (transferAdmin (Some Scenario.ann)
                                 (Some Scenario.team_id) (Some Scenario.bea))
                              (world_of Scenario.d0)))))
  = Some (set_groupAdmin Scenario.bea Scenario.team).
Proof.
  refine (proj1 (proj2 (proj2
    (@transfer_hands_over (world_of Scenario.d0) Scenario.ann
       Scenario.team_id Scenario.bea Scenario.team
       eq_refl eq_refl _ _ eq_refl)))).
  - discriminate.
  - simpl. repeat constructor. intros [].
Defined.

End Handover.

Module SetFacts.
Import StoreFacts.






End SetFacts.

Module GroupBirth.
Import ProgFacts StoreFacts SetFacts.




End GroupBirth.

Module Membership.
Import ProgFacts StoreFacts SetFacts Authorization.






(** What remove-member writes, when it writes. *)
Lemma removeFromGroup_store w q c u :
  let w' := snd (run (removeFromGroup (Some q) (Some c) u) w) in
  store w' = store w
  \/ exists uid ch,
       u = Some uid
       /\ find (by_id c) (Chat (store w)) = Some ch
       /\ opt_eqb (groupAdmin ch) (Some q) || String.eqb uid q = true
       /\ opt_eqb (groupAdmin ch) (Some q) && String.eqb uid q
          && Nat.ltb 1 (List.length (users ch)) = false
       /\ find (by_id c) (Chat (store w')) = Some (pull_user uid ch).
Proof.
  cbv zeta. unfold removeFromGroup.
  destruct u as [uid|]; [|now left].
  destruct (negb (truthy c) || negb (truthy uid)); [now left|].
  destruct (negb (isValid c) || negb (isValid uid)); [now left|].
  rewrite run_trigger_bind. cbn [perform fst snd].
  destruct (find (by_id c) (Chat (store w))) as [ch|] eqn:Hfind;
    [|now left].
  destruct (negb (isGroupChat ch)); [now left|].
  cbv zeta.
  destruct (opt_eqb (groupAdmin ch) (Some q)) eqn:Ea;
    destruct (String.eqb uid q) eqn:Es; cbn [negb andb orb]; cbv iota;
    try (now left);
    (destruct (negb (mem uid (users ch))); [now left|]).
  - destruct (Nat.ltb 1 (List.length (users ch))) eqn:El; [now left|].
    right. exists uid, ch. rewrite Ea, Es, El. repeat split.
    exact (proj2 (@AdminLeaves.removal_succeeds c uid ch true w Hfind)).
  - right. exists uid, ch. rewrite Ea, Es. repeat split.
    exact (proj2 (@AdminLeaves.removal_succeeds c uid ch false w Hfind)).
  - right. exists uid, ch. rewrite Ea, Es. repeat split.
    exact (proj2 (@AdminLeaves.removal_succeeds c uid ch true w Hfind)).
Qed.

(** X15: remove-member never leaves a group with members but without
    its admin among them: if the admin of the stored chat is one of its
    members before a removal request, whoever makes it and whomever it
    names, then afterwards the chat has the same admin, and the admin is
    still a member unless the chat has no member left, which happens only
    when the admin, as the only member, removed themself. *)
Theorem removal_keeps_admin_among_members :
  forall (w : world) (q c a : string) (u : option string) (ch ch' : chat),
    find (by_id c) (Chat (store w)) = Some ch ->
    groupAdmin ch = Some a ->
    In a (users ch) ->
    find (by_id c)
         (Chat (store (snd (run (removeFromGroup (Some q) (Some c) u) w))))
    = Some ch' ->
    groupAdmin ch' = Some a
    /\ (In a (users ch')
        \/ (users ch' = [] /\ users ch = [a] /\ q = a /\ u = Some a)).
Proof.
  intros w q c a u ch ch' Hfind Hadm Hin Hfind'.
  destruct (removeFromGroup_store w q c u)
    as [Hsame|(uid & ch0 & -> & Hf0 & Hauth & Hlen & Hafter)].
  - rewrite Hsame, Hfind in Hfind'. injection Hfind' as <-. now split; [|left].
  - rewrite Hfind in Hf0. injection Hf0 as <-.
    rewrite Hafter in Hfind'. injection Hfind' as <-.
    split; [exact Hadm|]. rewrite Hadm in *. simpl.
    destruct (String.eqb uid a) eqn:Eu.
    + apply String.eqb_eq in Eu. subst uid. right.
      assert (Hq : q = a).
      { destruct (String.eqb a q) eqn:Eq.
        - apply String.eqb_eq in Eq. congruence.
        - simpl in Hauth. rewrite orb_false_r in Hauth. congruence. }
      subst q. simpl in Hlen. rewrite !String.eqb_refl in Hlen.
      simpl in Hlen. apply Nat.ltb_ge in Hlen.
      pose proof (@AdminLeaves.sole_member a (users ch) Hin Hlen) as Hsole.
      rewrite Hsole. simpl. rewrite String.eqb_refl. now repeat split.
    + left. apply filter_In. split; [exact Hin|].
      rewrite String.eqb_sym, Eu. reflexivity.
Qed.

Lemma removal_keeps_admin_among_members_witness :
  groupAdmin (pull_user Scenario.cal Scenario.team) = Some Scenario.ann.
Proof.
  refine (proj1
    (@removal_keeps_admin_among_members (world_of Scenario.d0)
       Scenario.cal Scenario.team_id Scenario.ann (Some Scenario.cal)
       Scenario.team (pull_user Scenario.cal Scenario.team)
       eq_refl eq_refl _ eq_refl)).
  simpl. now left.
Defined.

End Membership.

Module Errors.

(** X16: the error middleware never answers 200 or 0 to an error, unless
    the error object itself carries the status 200: whatever status the
    response had when the error was raised, a 200 becomes 500. A cast
    error on an ObjectId is answered 404 and a validation error 400,
    whatever status came with them, and an unknown route is answered
    404. *)
Theorem errorHandler_never_ok :
  forall (err : js_error) (resStatusCode : nat),
    fst (errorHandler err resStatusCode) <> 0
    /\ (fst (errorHandler err resStatusCode) = 200 ->
        err_statusCode err = Some 200)
    /\ (err_name err = "ValidationError" ->
        fst (errorHandler err resStatusCode) = 400)
    /\ (err_name err = "CastError" -> err_kind err = Some "ObjectId" ->
        err_code err = None ->
        fst (errorHandler err resStatusCode) = 404)
    /\ (forall method url,
          notFound method url
          = (404, ("Not Found - " ++ method ++ " " ++ url)%string)).
Proof.
  intros err rs. unfold errorHandler.
  destruct (String.eqb (err_name err) "ValidationError") eqn:Ev.
  { apply String.eqb_eq in Ev. simpl.
    repeat split; try lia; try discriminate; try reflexivity.
    intros E. rewrite Ev in E. discriminate E. }
  assert (Hnv : err_name err <> "ValidationError")
    by now apply String.eqb_neq.
  destruct (match err_code err with
            | Some n => N.eqb n 11000
            | None => false
            end) eqn:Ec.
  { simpl. repeat split; try lia; try discriminate; try contradiction.
    intros _ _ E. rewrite E in Ec. discriminate Ec. }
  destruct (String.eqb (err_name err) "CastError"
            && opt_eqb (err_kind err) (Some "ObjectId")) eqn:Ek.
  { simpl. repeat split; try lia; try discriminate; try contradiction. }
  cbn [fst].
  assert (Hcast : err_name err = "CastError" ->
                  err_kind err = Some "ObjectId" -> False).
  { intros E1 E2. rewrite E1, E2 in Ek. discriminate Ek. }
  split; [|split; [|split; [|split]]].
  - unfold num_or. destruct (err_statusCode err) as [[|n]|];
      destruct (Nat.eqb rs 200); destruct rs; simpl; lia.
  - unfold num_or. destruct (err_statusCode err) as [[|n]|]; simpl.
    + destruct (Nat.eqb rs 200) eqn:E; [discriminate|].
      destruct rs; [discriminate|]. intros H. rewrite H in E. discriminate E.
    + congruence.
    + destruct (Nat.eqb rs 200) eqn:E; [discriminate|].
      destruct rs; [discriminate|]. intros H. rewrite H in E. discriminate E.
  - contradiction.
  - intros E1 E2 _. destruct (Hcast E1 E2).
  - reflexivity.
Qed.

Lemma errorHandler_never_ok_witness :
  fst (errorHandler
         (mkError (Some 200) "ValidationError" None None "" []
                  ["Chat name is required"])
         200) = 400.
Proof.
  apply (proj1 (proj2 (proj2 (@errorHandler_never_ok
           (mkError (Some 200) "ValidationError" None None "" []
                    ["Chat name is required"])
           200)))).
  reflexivity.
Defined.

End Errors.

Module Listing.
Import StoreFacts.

Lemma length_flat_map_one (A B : Type) (f : A -> B) (l : list A) :
  List.length (flat_map (fun x => [f x]) l) = List.length l.
Proof.
  induction l as [|x r IH]; simpl; [reflexivity|now rewrite IH].
Qed.

(** X17: the list of chats shows a user the chats they are a member of
    and no other: every chat returned is the populated form of a stored
    chat that has the requester among its members, the count is the
    length of the list, and, when populate succeeds, every stored chat of
    the requester is in the list, once for each time it is stored. The
    order, by [updatedAt], is any permutation. *)
Theorem fetchChats_members_only :
  forall (byUpdatedAt : list chat -> list chat) (d : db) (q : string),
    (forall l, Permutation (byUpdatedAt l) l) ->
    let r := fetchChats byUpdatedAt (Some q) d in
    cr_count r = List.length (cr_chats r)
    /\ (forall pc, In pc (cr_chats r) ->
          exists stored,
            In stored (Chat d) /\ In q (users stored)
            /\ pc = populated d stored)
    /\ (truthy q = true -> cr_status r = 200)
    /\ (truthy q = true -> populateOk d = true ->
        (forall stored, In stored (Chat d) -> In q (users stored) ->
                        In (populated d stored) (cr_chats r))
        /\ cr_count r
           = List.length (filter (fun c => mem q (users c)) (Chat d))).
Proof.
  intros sort d q Hperm r. subst r. unfold fetchChats.
  destruct (truthy q); cbn [negb];
    [|repeat split; try discriminate; intros pc []].
  set (mine := filter (fun c => mem q (users c)) (Chat d)).
  set (pop := fun c => if populateOk d then [populated d c] else []).
  assert (E : match sort mine with
              | [] => mkChatsResponse 200 0 []
              | _ => mkChatsResponse 200
                       (List.length (flat_map pop (sort mine)))
                       (flat_map pop (sort mine))
              end
              = mkChatsResponse 200
                  (List.length (flat_map pop (sort mine)))
                  (flat_map pop (sort mine)))
    by now destruct (sort mine).
  cbv zeta. fold mine. fold pop. rewrite E. clear E. simpl.
  split; [reflexivity|]. split; [|split; [reflexivity|]].
  - intros pc Hpc. apply in_flat_map in Hpc.
    destruct Hpc as (c & Hc & Hpc).
    apply (Permutation_in _ (Hperm mine)) in Hc.
    apply filter_In in Hc. destruct Hc as [Hin Hm].
    apply mem_In in Hm. unfold pop in Hpc.
    destruct (populateOk d); [|contradiction].
    destruct Hpc as [<-|[]]. now exists c.
  - intros _ Hpop. unfold pop. rewrite Hpop. split.
    + intros stored Hin Hq. apply in_flat_map. exists stored.
      split; [|now left].
      apply (Permutation_in _ (Permutation_sym (Hperm mine))).
      apply filter_In. split; [exact Hin|]. now apply mem_In.
    + rewrite length_flat_map_one. apply Permutation_length, Hperm.
Qed.

Lemma fetchChats_members_only_witness :
  cr_count (fetchChats (@rev chat) (Some Scenario.bea) MoreScenarios.d1)
  = 2.
Proof.
  pose proof (@fetchChats_members_only (@rev chat) MoreScenarios.d1
                Scenario.bea
                (fun l => Permutation_sym (Permutation_rev l))) as H.
  cbv zeta in H.
  exact (eq_trans (proj2 (proj2 (proj2 (proj2 H)) eq_refl eq_refl))
                  eq_refl).
Defined.

End Listing.

Module Indicators.
Import Server.

Lemma handle_setups_recorded hist e st :
  setups_recorded hist st ->
  setups_recorded (hist ++ [e]) (fst (handle e st)).
Proof.
  intros H s d Hin Hd.
  assert (Hold : forall s0, In s0 (sockets st) -> userData s0 = Some d ->
                            In (Setup (id s0) (Some d)) (hist ++ [e]))
    by (intros s0 H0 H1; apply in_or_app; left; exact (H s0 d H0 H1)).
  destruct e as [sid|sid ud|sid ch|sid ch|sid ch|sid u sg f n ct
                 |sid to sg|sid to sg|sid to|sid]; simpl in Hin.
  - unfold on_connection in Hin. simpl in Hin. apply in_app_or in Hin.
    destruct Hin as [Hin|[<-|[]]]; [now apply Hold|discriminate Hd].
  - unfold on_setup in Hin.
    destruct ud as [d0|]; [|now apply Hold].
    destruct (ud_id d0) as [uid|]; [|now apply Hold].
    destruct (negb (truthy uid)); [now apply Hold|].
    simpl in Hin. unfold update_socket in Hin. apply in_map_iff in Hin.
    destruct Hin as (s0 & Hs & Hin0).
    destruct (String.eqb (id s0) sid) eqn:E.
    + subst s. simpl in Hd. injection Hd as <-. simpl.
      apply String.eqb_eq in E. rewrite E.
      apply in_or_app. right. now left.
    + subst s. now apply Hold.
  - unfold on_join_chat in Hin.
    destruct ch as [c|]; [|now apply Hold].
    destruct (negb (truthy c)); [now apply Hold|].
    simpl in Hin. unfold update_socket in Hin. apply in_map_iff in Hin.
    destruct Hin as (s0 & Hs & Hin0).
    destruct (String.eqb (id s0) sid); subst s; simpl in Hd |- *;
      now apply (Hold s0).
  - unfold on_typing, on_typing_event in Hin.
    destruct ch as [c|]; [|now apply Hold].
    destruct (negb (truthy c) || _); now apply Hold.
  - unfold on_stop_typing, on_typing_event in Hin.
    destruct ch as [c|]; [|now apply Hold].
    destruct (negb (truthy c) || _); now apply Hold.
  - unfold on_call_user in Hin.
    destruct (Obj.get u (onlineUsers st)) as [r|]; [|now apply Hold].
    destruct (truthy r); now apply Hold.
  - unfold on_call_accepted in Hin.
    destruct (Obj.get to (onlineUsers st)) as [r|]; [|now apply Hold].
    destruct (truthy r); now apply Hold.
  - unfold on_signal in Hin.
    destruct (Obj.get to (onlineUsers st)) as [r|]; [|now apply Hold].
    destruct (truthy r); now apply Hold.
  - unfold on_call_ended in Hin.
    destruct (Obj.get to (onlineUsers st)) as [r|]; [|now apply Hold].
    destruct (truthy r); now apply Hold.
  - assert (Hsub : In s (sockets st)).
    { unfold on_disconnect in Hin.
      destruct (truthy_opt _);
        [destruct (getUserIdFromSocketId _ _)|]; simpl in Hin;
        apply filter_In in Hin; now destruct Hin. }
    now apply Hold.
Qed.

Lemma handle_typing_source hist e st c sid ev u c' :
  setups_recorded hist st ->
  In (Emit (ToRoomExcept c sid) ev (PTyping u c')) (snd (handle e st)) ->
  exists d uid,
    In (Setup sid (Some d)) hist
    /\ ud_id d = Some uid /\ u = Some uid /\ truthy uid = true
    /\ truthy c = true /\ c' = c.
Proof.
  intros H Hin.
  assert (Htyping : forall name sid0 ch,
            In (Emit (ToRoomExcept c sid) ev (PTyping u c'))
               (snd (on_typing_event name sid0 ch st)) ->
            exists d uid,
              In (Setup sid (Some d)) hist
              /\ ud_id d = Some uid /\ u = Some uid /\ truthy uid = true
              /\ truthy c = true /\ c' = c).
  { intros name sid0 ch Hin0. unfold on_typing_event in Hin0.
    destruct ch as [c0|]; [|contradiction].
    destruct (negb (truthy c0)
              || negb (truthy_opt (socket_user_id sid0 st))) eqn:E;
      [contradiction|].
    apply orb_false_iff in E. destruct E as [Ec Eu].
    apply negb_false_iff in Ec. apply negb_false_iff in Eu.
    destruct Hin0 as [Heq|[]]. inversion Heq; subst; clear Heq.
    unfold socket_user_id in *.
    destruct (find_socket sid (sockets st)) as [s|] eqn:Ef;
      [|discriminate Eu].
    destruct (userData s) as [d|] eqn:Ed; [|discriminate Eu].
    destruct (ud_id d) as [uid|] eqn:Ei; [|discriminate Eu].
    unfold find_socket in Ef. apply find_some in Ef.
    destruct Ef as [Hs Hid]. apply String.eqb_eq in Hid.
    exists d, uid. rewrite <- Hid. repeat split; try assumption.
    now apply H. }
  destruct e as [sid0|sid0 ud|sid0 ch|sid0 ch|sid0 ch|sid0 u0 sg f n ct
                 |sid0 to sg|sid0 to sg|sid0 to|sid0]; simpl in Hin.
  - contradiction.
  - unfold on_setup in Hin.
    destruct ud as [d0|]; [|contradiction].
    destruct (ud_id d0) as [uid|]; [|contradiction].
    destruct (negb (truthy uid)); [contradiction|].
    destruct Hin as [Heq|[Heq|[]]]; discriminate Heq.
  - unfold on_join_chat in Hin.
    destruct ch as [c0|]; [|contradiction].
    destruct (negb (truthy c0)); contradiction.
  - exact (Htyping _ _ _ Hin).
  - exact (Htyping _ _ _ Hin).
  - unfold on_call_user in Hin.
    destruct (Obj.get u0 (onlineUsers st)) as [r|]; [|contradiction].
    destruct (truthy r); [|contradiction].
    destruct Hin as [Heq|[]]; discriminate Heq.
  - unfold on_call_accepted in Hin.
    destruct (Obj.get to (onlineUsers st)) as [r|]; [|contradiction].
    destruct (truthy r); [|contradiction].
    destruct Hin as [Heq|[]]; discriminate Heq.
  - unfold on_signal in Hin.
    destruct (Obj.get to (onlineUsers st)) as [r|]; [|contradiction].
    destruct (truthy r); [|contradiction].
    destruct Hin as [Heq|[]]; discriminate Heq.
  - unfold on_call_ended in Hin.
    destruct (Obj.get to (onlineUsers st)) as [r|]; [|contradiction].
    destruct (truthy r); [|contradiction].
    destruct Hin as [Heq|[]]; discriminate Heq.
  - unfold on_disconnect in Hin.
    destruct (truthy_opt _);
      [destruct (getUserIdFromSocketId _ _)|]; simpl in Hin;
      try contradiction.
    destruct Hin as [Heq|[]]; discriminate Heq.
Qed.

Lemma run_typing_source es :
  forall hist st c sid ev u c',
    setups_recorded hist st ->
    In (Emit (ToRoomExcept c sid) ev (PTyping u c'))
       (snd (run_events es st)) ->
    exists d uid,
      In (Setup sid (Some d)) (hist ++ es)
      /\ ud_id d = Some uid /\ u = Some uid /\ truthy uid = true
      /\ truthy c = true /\ c' = c.
Proof.
  induction es as [|e r IH]; intros hist st c sid ev u c' H Hin;
    [contradiction|].
  simpl in Hin.
  pose proof (@handle_setups_recorded hist e st H) as H1.
  pose proof (@handle_typing_source hist e st c sid ev u c' H) as H2.
  destruct (handle e st) as [st1 out1]. simpl in H1, H2.
  pose proof (IH (hist ++ [e]) st1 c sid ev u c' H1) as H3.
  destruct (run_events r st1) as [st2 out2]. simpl in H3, Hin.
  apply in_app_or in Hin. destruct Hin as [Hin|Hin].
  - destruct (H2 Hin) as (d & uid & Hs & Hrest).
    exists d, uid. split; [|exact Hrest].
    apply in_or_app. now left.
  - destruct (H3 Hin) as (d & uid & Hs & Hrest).
    exists d, uid. split; [|exact Hrest].
    now rewrite <- app_assoc in Hs.
Qed.

(** X18: a typing indicator names the identity its socket declared:
    whatever events the server has handled since it started, every
    "typing" or "stop typing" indicator it relays to a room, the sender
    excepted, carries a user id that is not empty and that the sending
    socket itself gave in one of its setups; a socket that never completed
    a setup relays none. The chat id in the payload is the room. *)
Theorem typing_names_the_setup_identity :
  forall (es : list event) (c sid ev : string) (u : option string)
         (c' : string),
    In (Emit (ToRoomExcept c sid) ev (PTyping u c'))
       (snd (run_events es initial)) ->
    exists d uid,
      In (Setup sid (Some d)) es
      /\ ud_id d = Some uid /\ u = Some uid /\ truthy uid = true
      /\ truthy c = true /\ c' = c.
Proof.
  intros es c sid ev u c' Hin.
  apply (@run_typing_source es [] initial c sid ev u c'); [|exact Hin].
  intros s d [].
Qed.

Lemma typing_names_the_setup_identity_witness :
  exists d uid,
    In (Setup "s1" (Some d))
       [Connection "s1"; Setup "s1" (Some alice);
        Typing "s1" (Some "room")]
    /\ ud_id d = Some uid /\ Some "u1" = Some uid /\ truthy uid = true
    /\ truthy "room" = true /\ "room" = "room".
Proof.
  apply (@typing_names_the_setup_identity
           [Connection "s1"; Setup "s1" (Some alice);
            Typing "s1" (Some "room")]
           "room" "s1" "typing" (Some "u1") "room").
  simpl. right. right. left. reflexivity.
Defined.

End Indicators.

Module RegistryFrame.
Import Server.

Lemma handle_frame e st :
  presence_event e = false ->
  onlineUsers (fst (handle e st)) = onlineUsers st
  /\ forall em, In em (snd (handle e st)) -> e_target em <> ToAll.
Proof.
  intros He.
  destruct e as [sid|sid ud|sid ch|sid ch|sid ch|sid u sg f n ct
                 |sid to sg|sid to sg|sid to|sid];
    try discriminate He; simpl.
  - split; [reflexivity|intros em []].
  - unfold on_join_chat. destruct ch as [c|];
      [destruct (negb (truthy c))|]; (split; [reflexivity|intros em []]).
  - unfold on_typing, on_typing_event. destruct ch as [c|];
      [destruct (negb (truthy c) || _)|];
      (split; [reflexivity|]); simpl; intros em H;
      try contradiction.
    destruct H as [<-|[]]. discriminate.
  - unfold on_stop_typing, on_typing_event. destruct ch as [c|];
      [destruct (negb (truthy c) || _)|];
      (split; [reflexivity|]); simpl; intros em H;
      try contradiction.
    destruct H as [<-|[]]. discriminate.
  - unfold on_call_user.
    destruct (Obj.get u (onlineUsers st)) as [r|];
      [destruct (truthy r)|];
      (split; [reflexivity|]); simpl; intros em H; try contradiction.
    destruct H as [<-|[]]. discriminate.
  - unfold on_call_accepted.
    destruct (Obj.get to (onlineUsers st)) as [r|];
      [destruct (truthy r)|];
      (split; [reflexivity|]); simpl; intros em H; try contradiction.
    destruct H as [<-|[]]. discriminate.
  - unfold on_signal.
    destruct (Obj.get to (onlineUsers st)) as [r|];
      [destruct (truthy r)|];
      (split; [reflexivity|]); simpl; intros em H; try contradiction.
    destruct H as [<-|[]]. discriminate.
  - unfold on_call_ended.
    destruct (Obj.get to (onlineUsers st)) as [r|];
      [destruct (truthy r)|];
      (split; [reflexivity|]); simpl; intros em H; try contradiction.
    destruct H as [<-|[]]. discriminate.
Qed.

(** X19: the presence registry is written by setup and disconnect only:
    over any sequence of other events (connections, joins, typing
    indicators, call signalling), from any state, the registry is as it
    was and nothing is broadcast to all clients, the list of online users
    in particular. *)
Theorem registry_written_by_setup_and_disconnect_only :
  forall (es : list event) (st : state),
    Forall (fun e => presence_event e = false) es ->
    onlineUsers (state_after es st) = onlineUsers st
    /\ forall em, In em (snd (run_events es st)) -> e_target em <> ToAll.
Proof.
  unfold state_after.
  induction es as [|e r IH]; intros st HF; simpl;
    [split; [reflexivity|intros em []]|].
  inversion HF as [|e0 r0 He Hr]; subst.
  destruct (@handle_frame e st He) as [H1 H2].
  destruct (handle e st) as [st1 out1]. simpl in H1, H2.
  destruct (IH st1 Hr) as [H3 H4].
  destruct (run_events r st1) as [st2 out2]. simpl in H3, H4. simpl.
  split; [congruence|].
  intros em Hin. apply in_app_or in Hin. destruct Hin; auto.
Qed.

Lemma registry_written_by_setup_and_disconnect_only_witness :
  onlineUsers
    (state_after [Connection "s3"; JoinChat "s3" (Some "room");
                  Typing "s1" (Some "room");
                  CallUser "s1" "u2" "offer" (Some "u1") None None]
                 (state_after two_sessions initial))
  = onlineUsers (state_after two_sessions initial).
Proof.
  apply (@registry_written_by_setup_and_disconnect_only
           [Connection "s3"; JoinChat "s3" (Some "room");
            Typing "s1" (Some "room");
            CallUser "s1" "u2" "offer" (Some "u1") None None]
           (state_after two_sessions initial)).
  repeat constructor.
Defined.

End RegistryFrame.
